(** * Black-Scholes pricing and the parameter sweep of [main.py]

    A shallow embedding of the two pricing functions [black_scholes_call]
    and [black_scholes_put] and of the script around them: the headline
    prices, the axes [spot_prices] and [volatilities], the grids
    [call_prices] and [put_prices] and the traces of the line plots.

    The program computes with IEEE binary64 numbers.  It is read twice.

    - Module [Binary64] is the program on Rocq's primitive binary64
      floats: rounded arithmetic, overflow, signed zeros and NaN, with
      Python's [ZeroDivisionError] and [OverflowError].  Whatever is said
      about what the functions return or raise is said there.

    - Before it, the same program is read over the real numbers extended
      by +inf, -inf and NaN, with exact arithmetic on finite values.  That
      reading cannot round or overflow.  It serves for what does not
      depend on the arithmetic (which call fills which cell, the shape of
      the grids, the order and the membership of the axes), and its
      real-valued expressions [call_R] and [put_R] are the formula of the
      program over the real numbers: the value that the binary64 results
      approximate. *)

From Stdlib Require Import Floats.
From Stdlib Require Import Bool ZArith Reals Lra List Arith Lia Sorted FinFun.
Import ListNotations.

#[local] Set Warnings "-inexact-float".

Local Open Scope R_scope.

(** ** The standard normal distribution function

    [scipy.stats.norm.cdf] is library code.  It is modelled by the
    distribution function of the standard normal law,
    [Phi x = 1/2 + (integral of exp (- t^2 / 2) from 0 to x) / sqrt (2 PI)].
    The module derives what the pricing proofs need: the symmetry
    [Phi (- x) = 1 - Phi x], the bounds [0 <= Phi <= 1], the density as
    derivative, and the vanishing tails, which rest on the value
    [sqrt (PI / 2)] of the Gaussian integral over the half line. *)

Module NormalCDF.

(** *** Integrals of continuous functions *)

Section ContinuousIntegral.

Variable f : R -> R.
Hypothesis f_cont : continuity f.

Definition cint (a b : R) : Riemann_integrable f a b :=
  match Rle_dec a b with
  | left Hab => continuity_implies_RiemannInt Hab (fun x _ => f_cont x)
  | right Hba =>
      RiemannInt_P1
        (continuity_implies_RiemannInt
           (Rlt_le _ _ (Rnot_le_lt _ _ Hba)) (fun x _ => f_cont x))
  end.

Definition integral (a b : R) : R := RiemannInt (cint a b).

Lemma integral_refl a : integral a a = 0.
Proof. apply RiemannInt_P9. Qed.

Lemma integral_chasles a b c :
  integral a b + integral b c = integral a c.
Proof. apply RiemannInt_P26. Qed.

Lemma derivable_pt_lim_integral a x :
  derivable_pt_lim (integral a) x (f x).
Proof.
  set (lo := x - 1). set (hi := x + 1).
  assert (Hlh : lo <= hi) by (unfold lo, hi; lra).
  pose (C0 := fun (y : R) (_ : lo <= y <= hi) => f_cont y).
  apply (derivable_pt_lim_locally_ext
           (fun y => primitive Hlh (FTC_P1 Hlh C0) y + integral a lo)
           (integral a) x lo hi).
  - unfold lo, hi; lra.
  - intros z [Hz1 Hz2]. unfold primitive.
    destruct (Rle_dec lo z) as [Haz|Haz]; [|lra].
    destruct (Rle_dec z hi) as [Hzb|Hzb]; [|lra].
    rewrite (RiemannInt_P5 _ (cint lo z)).
    fold (integral lo z). rewrite <- (integral_chasles a lo z). ring.
  - replace (f x) with (f x + 0) by ring.
    apply (derivable_pt_lim_plus
             (primitive Hlh (FTC_P1 Hlh C0)) (fct_cte (integral a lo))).
    + apply RiemannInt_P27. unfold lo, hi; lra.
    + apply derivable_pt_lim_const.
Qed.

(** A function whose derivative is [f] computes the integrals of [f]. *)
Lemma integral_antiderivative (F : R -> R) a b :
  (forall t, derivable_pt_lim F t (f t)) -> integral a b = F b - F a.
Proof.
  intro HF.
  pose (D := (integral a - F)%F).
  assert (HD : forall t, derivable_pt_lim D t 0).
  { intro t. replace 0 with (f t - f t) by ring.
    apply derivable_pt_lim_minus; [apply derivable_pt_lim_integral|apply HF]. }
  assert (dD : derivable D) by (intro t; exists 0; apply HD).
  assert (cD : constant D).
  { apply (null_derivative_1 D dD). intro t. apply derive_pt_eq_0, HD. }
  specialize (cD b a). unfold D, minus_fct in cD.
  rewrite integral_refl in cD. lra.
Qed.

Lemma integral_bounds a b l u :
  a <= b -> (forall t, a < t < b -> l <= f t <= u) ->
  l * (b - a) <= integral a b <= u * (b - a).
Proof. intros Hab Hb. apply RiemannInt_const_bound; assumption. Qed.

End ContinuousIntegral.

Lemma integral_plus_scal f g l (Hf : continuity f) (Hg : continuity g)
      (Hfg : continuity (fun t => f t + l * g t)) a b :
  integral (fun t => f t + l * g t) Hfg a b
  = integral f Hf a b + l * integral g Hg a b.
Proof. unfold integral. apply RiemannInt_P13. Qed.

Lemma continuity_plus_scal f g l :
  continuity f -> continuity g -> continuity (fun t => f t + l * g t).
Proof.
  intros Hf Hg.
  apply (continuity_plus f (mult_real_fct l g)); [assumption|].
  apply continuity_scal. assumption.
Qed.

Lemma Rabs_le_between a b : Rabs a <= b -> - b <= a <= b.
Proof. unfold Rabs. destruct (Rcase_abs a); lra. Qed.

(** *** The density and its integral from zero *)

Definition gauss (t : R) : R := exp (- (t * t) / 2).

Lemma gauss_pos t : 0 < gauss t.
Proof. apply exp_pos. Qed.

Lemma gauss_even t : gauss (- t) = gauss t.
Proof. unfold gauss. f_equal. lra. Qed.

Lemma derivable_pt_lim_gauss x : derivable_pt_lim gauss x (gauss x * - x).
Proof.
  unfold gauss.
  apply (derivable_pt_lim_ext (comp exp (fun t => (- / 2) * (t * t)))).
  { intro z. unfold comp. f_equal. lra. }
  apply (derivable_pt_lim_comp (fun t => (- / 2) * (t * t)) exp).
  - replace (- x) with (- / 2 * (1 * x + x * 1)) by lra.
    apply derivable_pt_lim_scal.
    apply (derivable_pt_lim_mult id id x 1 1); apply derivable_pt_lim_id.
  - replace (- (x * x) / 2) with (- / 2 * (x * x)) by lra.
    apply derivable_pt_lim_exp.
Qed.

Lemma gauss_continuity : continuity gauss.
Proof.
  intro x. apply derivable_continuous_pt.
  exists (gauss x * - x). apply derivable_pt_lim_gauss.
Qed.

(** [G x] is the integral of [gauss] from [0] to [x]. *)
Definition G (x : R) : R := integral gauss gauss_continuity 0 x.

Lemma G_0 : G 0 = 0.
Proof. apply integral_refl. Qed.

Lemma derivable_pt_lim_G x : derivable_pt_lim G x (gauss x).
Proof. apply derivable_pt_lim_integral. Qed.

Lemma derivable_G : derivable G.
Proof. intro x. exists (gauss x). apply derivable_pt_lim_G. Qed.

Lemma G_increasing : increasing G.
Proof.
  apply (nonneg_derivative_1 G derivable_G). intro x.
  rewrite (derive_pt_eq_0 _ _ _ (derivable_G x) (derivable_pt_lim_G x)).
  apply Rlt_le, gauss_pos.
Qed.

Lemma G_odd x : G (- x) = - G x.
Proof.
  pose (K := fun y => G y + comp G (fun t => - t) y).
  assert (HK : forall y, derivable_pt_lim K y 0).
  { intro y. unfold K.
    replace 0 with (gauss y + gauss (- y) * - 1)
      by (rewrite gauss_even; ring).
    apply derivable_pt_lim_plus; [apply derivable_pt_lim_G|].
    apply derivable_pt_lim_comp; [|apply derivable_pt_lim_G].
    apply (derivable_pt_lim_ext (- id)%F).
    - intro z. reflexivity.
    - apply derivable_pt_lim_opp, derivable_pt_lim_id. }
  assert (dK : derivable K) by (intro y; exists 0; apply HK).
  assert (cK : constant K).
  { apply (null_derivative_1 K dK). intro y.
    apply derive_pt_eq_0, HK. }
  specialize (cK x 0). unfold K, comp in cK.
  rewrite Ropp_0, G_0 in cK. lra.
Qed.

(** *** The Gaussian integral

    [G x * G x + 2 * B x] is constant, where [B x] is the integral over
    [0 <= t <= 1] of [exp (- x^2 (1 + t^2) / 2) / (1 + t^2)].  At [0] its
    value is [2 * atan 1]. *)

Definition e2 (y t : R) : R := exp (- (y * y) * (1 + t * t) / 2).
Definition bfun (y t : R) : R := e2 y t * / (1 + t * t).
Definition dbfun (y t : R) : R := - y * e2 y t.
Definition d2bfun (y t : R) : R := (-1 + y * y * (1 + t * t)) * e2 y t.

Lemma one_plus_sq_pos t : 0 < 1 + t * t.
Proof. pose proof (Rle_0_sqr t) as H. unfold Rsqr in H. lra. Qed.

Lemma derivable_pt_lim_e2 t y :
  derivable_pt_lim (fun z => e2 z t) y (e2 y t * (- y * (1 + t * t))).
Proof.
  unfold e2.
  apply (derivable_pt_lim_ext
           (comp exp (mult_real_fct (- (1 + t * t) / 2) (id * id)%F))).
  { intro z. unfold comp, mult_real_fct, mult_fct, id. f_equal. field. }
  apply derivable_pt_lim_comp.
  - replace (- y * (1 + t * t))
      with (- (1 + t * t) / 2 * (1 * id y + id y * 1)) by (unfold id; field).
    apply derivable_pt_lim_scal.
    apply (derivable_pt_lim_mult id id y 1 1); apply derivable_pt_lim_id.
  - replace (- (y * y) * (1 + t * t) / 2)
      with (mult_real_fct (- (1 + t * t) / 2) (id * id)%F y)
      by (unfold mult_real_fct, mult_fct, id; field).
    apply derivable_pt_lim_exp.
Qed.

Lemma derivable_pt_lim_bfun t y :
  derivable_pt_lim (fun z => bfun z t) y (dbfun y t).
Proof.
  pose proof (one_plus_sq_pos t) as Hp.
  unfold bfun, dbfun.
  apply (derivable_pt_lim_ext
           (mult_real_fct (/ (1 + t * t)) (fun z => e2 z t))).
  { intro z. unfold mult_real_fct. ring. }
  replace (- y * e2 y t)
    with (/ (1 + t * t) * (e2 y t * (- y * (1 + t * t)))) by (field; lra).
  apply derivable_pt_lim_scal, derivable_pt_lim_e2.
Qed.

Lemma derivable_pt_lim_dbfun t y :
  derivable_pt_lim (fun z => dbfun z t) y (d2bfun y t).
Proof.
  unfold dbfun, d2bfun.
  apply (derivable_pt_lim_ext ((- id) * (fun z => e2 z t))%F).
  { intro z. reflexivity. }
  replace ((-1 + y * y * (1 + t * t)) * e2 y t)
    with (- 1 * e2 y t + (- id)%F y * (e2 y t * (- y * (1 + t * t))))
    by (unfold opp_fct, id; ring).
  apply (derivable_pt_lim_mult (- id)%F (fun z => e2 z t) y (- 1)
           (e2 y t * (- y * (1 + t * t)))).
  - apply derivable_pt_lim_opp, derivable_pt_lim_id.
  - apply derivable_pt_lim_e2.
Qed.

Lemma d2bfun_bound y t : Rabs (d2bfun y t) <= 2.
Proof.
  unfold d2bfun, e2.
  set (z := y * y * (1 + t * t)).
  assert (Hz : 0 <= z).
  { unfold z. apply Rmult_le_pos; [apply Rle_0_sqr|].
    apply Rlt_le, one_plus_sq_pos. }
  replace (- (y * y) * (1 + t * t) / 2) with (- (z / 2)) by (unfold z; field).
  pose proof (exp_ineq1_le (z / 2)) as He.
  pose proof (exp_pos (- (z / 2))) as Hp.
  assert (Hinv : exp (- (z / 2)) * exp (z / 2) = 1)
    by (rewrite <- exp_plus, Rplus_opp_l; apply exp_0).
  apply Rabs_le. split; nra.
Qed.

(** The first-order expansion of [bfun] in its first argument, with a
    remainder bounded uniformly in [t]. *)
Lemma taylor_bfun x h t :
  Rabs (bfun (x + h) t - bfun x t - h * dbfun x t) <= 2 * (h * h).
Proof.
  assert (Hcore : forall a b, a < b ->
            Rabs (bfun b t - bfun a t - (b - a) * dbfun a t)
              <= 2 * ((b - a) * (b - a))
            /\ Rabs (bfun a t - bfun b t - (a - b) * dbfun b t)
              <= 2 * ((b - a) * (b - a))).
  { intros a b Hab.
    destruct (MVT_cor2 (fun z => bfun z t) (fun z => dbfun z t) a b Hab)
      as [c [Hc1 Hc2]].
    { intros; apply derivable_pt_lim_bfun. }
    assert (Hd : forall u v, u < v ->
               Rabs (dbfun v t - dbfun u t) <= 2 * (v - u)).
    { intros u v Huv.
      destruct (MVT_cor2 (fun z => dbfun z t) (fun z => d2bfun z t) u v Huv)
        as [d [Hd1 Hd2]].
      { intros; apply derivable_pt_lim_dbfun. }
      rewrite Hd1, Rabs_mult, (Rabs_pos_eq (v - u)) by lra.
      pose proof (d2bfun_bound d t). nra. }
    pose proof (Hd a c (proj1 Hc2)) as Hac.
    pose proof (Hd c b (proj2 Hc2)) as Hcb.
    apply Rabs_le_between in Hac. apply Rabs_le_between in Hcb.
    split; apply Rabs_le; split; nra. }
  destruct (Rtotal_order h 0) as [Hneg|[->|Hpos]].
  - destruct (Hcore (x + h) x ltac:(lra)) as [_ H].
    replace (x + h - x) with h in H by ring.
    replace (x - (x + h)) with (- h) in H by ring.
    replace (- h * - h) with (h * h) in H by ring. exact H.
  - rewrite Rplus_0_r.
    replace (bfun x t - bfun x t - 0 * dbfun x t) with 0 by ring.
    rewrite Rabs_R0. lra.
  - destruct (Hcore x (x + h) ltac:(lra)) as [H _].
    replace (x + h - x) with h in H by ring. exact H.
Qed.

Lemma continuity_e2 y : continuity (fun t => e2 y t).
Proof.
  intro t. apply derivable_continuous_pt.
  exists (e2 y t * (- (y * y) / 2 * (0 + (1 * t + t * 1)))).
  unfold e2.
  apply (derivable_pt_lim_ext
           (comp exp (mult_real_fct (- (y * y) / 2)
                        (fct_cte 1 + id * id)%F))).
  { intro z. unfold comp, mult_real_fct, plus_fct, mult_fct, fct_cte, id.
    f_equal. field. }
  apply derivable_pt_lim_comp.
  - apply derivable_pt_lim_scal, derivable_pt_lim_plus.
    + apply derivable_pt_lim_const.
    + apply (derivable_pt_lim_mult id id t 1 1); apply derivable_pt_lim_id.
  - replace (- (y * y) * (1 + t * t) / 2)
      with (mult_real_fct (- (y * y) / 2) (fct_cte 1 + id * id)%F t)
      by (unfold mult_real_fct, plus_fct, mult_fct, fct_cte, id; field).
    apply derivable_pt_lim_exp.
Qed.

Lemma continuity_bfun y : continuity (fun t => bfun y t).
Proof.
  intro t. unfold bfun.
  apply (continuity_pt_mult (fun t => e2 y t) (/ (fct_cte 1 + id * id))%F).
  - apply continuity_e2.
  - apply continuity_pt_inv.
    + apply continuity_pt_plus.
      * apply continuity_pt_const. intros ? ?. reflexivity.
      * apply continuity_pt_mult; apply derivable_continuous_pt, derivable_id.
    + unfold plus_fct, mult_fct, fct_cte, id.
      pose proof (one_plus_sq_pos t). lra.
Qed.

Lemma continuity_dbfun y : continuity (fun t => dbfun y t).
Proof.
  unfold dbfun.
  apply (continuity_scal (fun t => e2 y t) (- y)), continuity_e2.
Qed.

Definition Bint (y : R) : R :=
  integral (fun t => bfun y t) (continuity_bfun y) 0 1.

Definition Dint (y : R) : R :=
  integral (fun t => dbfun y t) (continuity_dbfun y) 0 1.

Lemma Bint_remainder x h :
  Rabs (Bint (x + h) - Bint x - h * Dint x) <= 2 * (h * h).
Proof.
  pose (r1 := fun t => bfun (x + h) t + (- 1) * bfun x t).
  pose (r := fun t => r1 t + (- h) * dbfun x t).
  assert (Hr1 : continuity r1)
    by (apply continuity_plus_scal; apply continuity_bfun).
  assert (Hr : continuity r)
    by (apply continuity_plus_scal; [exact Hr1|apply continuity_dbfun]).
  assert (E : integral r Hr 0 1 = Bint (x + h) - Bint x - h * Dint x).
  { unfold r.
    rewrite (integral_plus_scal r1 (fun t => dbfun x t) (- h) Hr1
               (continuity_dbfun x)).
    unfold r1.
    rewrite (integral_plus_scal (fun t => bfun (x + h) t)
               (fun t => bfun x t) (- 1)
               (continuity_bfun (x + h)) (continuity_bfun x)).
    unfold Bint, Dint. ring. }
  rewrite <- E.
  pose proof (integral_bounds r Hr 0 1 (- (2 * (h * h))) (2 * (h * h))
                ltac:(lra)) as Hb.
  apply Rabs_le.
  assert (Hpw : forall t, 0 < t < 1 ->
              - (2 * (h * h)) <= r t <= 2 * (h * h)).
  { intros t _. apply Rabs_le_between. unfold r, r1.
    replace (bfun (x + h) t + -1 * bfun x t + - h * dbfun x t)
      with (bfun (x + h) t - bfun x t - h * dbfun x t) by ring.
    apply taylor_bfun. }
  specialize (Hb Hpw). lra.
Qed.

(** Differentiation under the integral sign. *)
Lemma derivable_pt_lim_Bint x : derivable_pt_lim Bint x (Dint x).
Proof.
  intros eps Heps.
  assert (Hd : 0 < eps / 2) by lra.
  exists (mkposreal _ Hd). simpl. intros h Hh Hhd.
  pose proof (Bint_remainder x h) as Hrem.
  replace ((Bint (x + h) - Bint x) / h - Dint x)
    with ((Bint (x + h) - Bint x - h * Dint x) / h) by (field; assumption).
  unfold Rdiv. rewrite Rabs_mult, Rabs_inv.
  assert (Hah : 0 < Rabs h) by (apply Rabs_pos_lt; assumption).
  apply Rmult_lt_reg_r with (Rabs h); [assumption|].
  rewrite Rmult_assoc, Rinv_l, Rmult_1_r by lra.
  assert (Hsq : h * h = Rabs h * Rabs h).
  { unfold Rabs. destruct (Rcase_abs h); ring. }
  rewrite Hsq in Hrem. nra.
Qed.

Lemma e2_gauss x t : e2 x t = gauss x * gauss (x * t).
Proof. unfold e2, gauss. rewrite <- exp_plus. f_equal. field. Qed.

Lemma Dint_G x : Dint x = - (gauss x * G x).
Proof.
  unfold Dint.
  rewrite (integral_antiderivative _ _ (fun t => - gauss x * G (x * t))).
  - rewrite Rmult_1_r, Rmult_0_r, G_0. ring.
  - intro t. unfold dbfun. rewrite e2_gauss.
    replace (- x * (gauss x * gauss (x * t)))
      with (- gauss x * (gauss (x * t) * (x * 1))) by ring.
    apply (derivable_pt_lim_scal (comp G (mult_real_fct x id))).
    apply derivable_pt_lim_comp.
    + apply derivable_pt_lim_scal, derivable_pt_lim_id.
    + apply derivable_pt_lim_G.
Qed.

Lemma Bint_0 : Bint 0 = PI / 4.
Proof.
  unfold Bint.
  rewrite (integral_antiderivative _ _ atan).
  - rewrite atan_1, atan_0. ring.
  - intro t. unfold bfun, e2.
    replace (exp (- (0 * 0) * (1 + t * t) / 2) * / (1 + t * t))
      with (/ (1 + t ^ 2)).
    + apply derivable_pt_lim_atan.
    + replace (- (0 * 0) * (1 + t * t) / 2) with 0 by field.
      rewrite exp_0. simpl. rewrite !Rmult_1_r, Rmult_1_l. reflexivity.
Qed.

Lemma Bint_bounds x : 0 <= Bint x <= gauss x.
Proof.
  pose proof (integral_bounds (fun t => bfun x t) (continuity_bfun x) 0 1
                0 (gauss x) ltac:(lra)) as H.
  assert (Hb : forall t, 0 < t < 1 -> 0 <= bfun x t <= gauss x).
  { intros t _. unfold bfun. rewrite e2_gauss.
    pose proof (gauss_pos x). pose proof (gauss_pos (x * t)).
    pose proof (one_plus_sq_pos t) as Hp.
    assert (Hg1 : gauss (x * t) <= 1).
    { unfold gauss. rewrite <- exp_0.
      destruct (Req_dec (x * t) 0) as [->|Hne].
      - replace (- (0 * 0) / 2) with 0 by field. apply Rle_refl.
      - apply Rlt_le, exp_increasing.
        pose proof (Rsqr_pos_lt _ Hne) as Hs. unfold Rsqr in Hs. lra. }
    assert (Hi : 0 < / (1 + t * t) <= 1).
    { split; [apply Rinv_0_lt_compat; assumption|].
      pose proof (Rle_0_sqr t) as Ht. unfold Rsqr in Ht.
      apply Rmult_le_reg_r with (1 + t * t); [assumption|].
      rewrite Rinv_l by lra. lra. }
    assert (Hbc : 0 <= gauss (x * t) * / (1 + t * t) <= 1) by nra.
    rewrite Rmult_assoc. split; nra. }
  specialize (H Hb). unfold Bint. lra.
Qed.

Lemma G_square x : G x * G x = PI / 2 - 2 * Bint x.
Proof.
  pose (F := (G * G + mult_real_fct 2 Bint)%F).
  assert (HF : forall y, derivable_pt_lim F y 0).
  { intro y. unfold F.
    replace 0 with ((gauss y * G y + G y * gauss y) + 2 * Dint y)
      by (rewrite Dint_G; ring).
    apply derivable_pt_lim_plus.
    - apply derivable_pt_lim_mult; apply derivable_pt_lim_G.
    - apply derivable_pt_lim_scal, derivable_pt_lim_Bint. }
  assert (dF : derivable F) by (intro y; exists 0; apply HF).
  assert (cF : constant F).
  { apply (null_derivative_1 F dF). intro y. apply derive_pt_eq_0, HF. }
  specialize (cF x 0). unfold F, plus_fct, mult_fct, mult_real_fct in cF.
  rewrite G_0, Bint_0 in cF. lra.
Qed.

(** The integral of the density over the positive half line. *)
Definition half_mass : R := sqrt (PI / 2).

Lemma half_mass_pos : 0 < half_mass.
Proof. apply sqrt_lt_R0. pose proof PI_RGT_0. lra. Qed.

Lemma half_mass_square : half_mass * half_mass = PI / 2.
Proof. apply sqrt_sqrt. pose proof PI_RGT_0. lra. Qed.



Lemma gauss_small delta : 0 < delta -> exists x, 0 <= x /\ gauss x < delta.
Proof.
  intro Hd.
  assert (Hi : 0 < / delta) by (apply Rinv_0_lt_compat; assumption).
  exists (1 + 2 * / delta). split; [lra|].
  set (x := 1 + 2 * / delta).
  assert (Hx : / delta < x * x / 2).
  { unfold x. set (d := / delta) in *.
    replace ((1 + 2 * d) * (1 + 2 * d) / 2) with (/ 2 + 2 * d + 2 * (d * d))
      by field.
    pose proof (Rle_0_sqr d) as Hsq. unfold Rsqr in Hsq. lra. }
  pose proof (exp_ineq1_le (x * x / 2)) as He.
  unfold gauss. replace (- (x * x) / 2) with (- (x * x / 2)) by field.
  rewrite exp_Ropp.
  rewrite <- (Rinv_inv delta).
  apply Rinv_lt_contravar; [|lra].
  apply Rmult_lt_0_compat; [assumption|apply exp_pos].
Qed.

(** [half_mass] is the limit of [G] at infinity. *)
Lemma G_near_half_mass eps : 0 < eps -> exists x, half_mass - eps < G x.
Proof.
  intro Heps.
  pose proof half_mass_pos as Hc. pose proof half_mass_square as Hcc.
  destruct (Rlt_dec half_mass eps) as [Hlt|Hle].
  - exists 0. rewrite G_0. lra.
  - apply Rnot_lt_le in Hle.
    destruct (gauss_small (half_mass * eps / 2)) as [x [Hx0 Hx]]; [nra|].
    exists x.
    pose proof (G_square x) as Hs. pose proof (Bint_bounds x) as Hb.
    pose proof (G_increasing 0 x Hx0) as Hg. rewrite G_0 in Hg.
    nra.
Qed.

(** *** The distribution function and its density *)


Definition Phi (x : R) : R := / 2 + G x / sqrt (2 * PI).

Lemma sqrt_2PI : sqrt (2 * PI) = 2 * half_mass.
Proof.
  pose proof half_mass_pos. pose proof half_mass_square.
  apply sqrt_lem_1; [pose proof PI_RGT_0; lra|lra|nra].
Qed.

Lemma Phi_eq x : Phi x = (half_mass + G x) / (2 * half_mass).
Proof.
  unfold Phi. rewrite sqrt_2PI. pose proof half_mass_pos. field. lra.
Qed.

Lemma Phi_sym x : Phi (- x) = 1 - Phi x.
Proof.
  unfold Phi. rewrite G_odd. field.
  rewrite sqrt_2PI. pose proof half_mass_pos. lra.
Qed.





(** The lower tail vanishes: [Phi] takes arbitrarily small values. *)
Lemma Phi_small eps : 0 < eps -> exists x, Phi x < eps.
Proof.
  intro Heps. pose proof half_mass_pos as Hm.
  destruct (G_near_half_mass (eps * (2 * half_mass))) as [y Hy]; [nra|].
  exists (- y). rewrite Phi_eq, G_odd.
  apply Rmult_lt_reg_r with (2 * half_mass); [lra|].
  unfold Rdiv. rewrite Rmult_assoc, Rinv_l by lra. lra.
Qed.

(** The upper tail: [Phi] takes values arbitrarily close to [1]. *)
Lemma Phi_large eps : 0 < eps -> exists x, 1 - eps < Phi x.
Proof.
  intro Heps. destruct (Phi_small eps Heps) as [x Hx].
  exists (- x). rewrite Phi_sym. lra.
Qed.

Lemma Phi_0 : Phi 0 = / 2.
Proof. unfold Phi. rewrite G_0. unfold Rdiv. ring. Qed.

End NormalCDF.

(** ** The formula

    Both pricing functions evaluate one arithmetic expression.  It is
    written once, over a type of numbers with its operations, and read
    twice: over the real numbers ([real_arithmetic], with the logarithm,
    the exponential and the normal distribution function themselves) and
    over binary64 ([Binary64.float_arithmetic], with rounded operations
    and the library's approximations).  [d2] is computed by its own
    expression, as in the source, not from [d1]. *)

Record arithmetic (A : Type) : Type := Arithmetic {
  a_add : A -> A -> A;
  a_sub : A -> A -> A;
  a_mul : A -> A -> A;
  a_div : A -> A -> A;
  a_neg : A -> A;
  a_half : A;
  a_pow2 : A -> A;
  a_log : A -> A;
  a_exp : A -> A;
  a_sqrt : A -> A;
  a_cdf : A -> A }.

Arguments a_add {A} _ _ _.
Arguments a_sub {A} _ _ _.
Arguments a_mul {A} _ _ _.
Arguments a_div {A} _ _ _.
Arguments a_neg {A} _ _.
Arguments a_half {A} _.
Arguments a_pow2 {A} _ _.
Arguments a_log {A} _ _.
Arguments a_exp {A} _ _.
Arguments a_sqrt {A} _ _.
Arguments a_cdf {A} _ _.

Section Formula.

Context {A : Type} (ops : arithmetic A).

(** [(np.log(S / K) + (r + 0.5 * sigma ** 2) * T) / (sigma * np.sqrt(T))] *)
Definition formula_d1 (S K T r sigma : A) : A :=
  a_div ops
    (a_add ops (a_log ops (a_div ops S K))
       (a_mul ops
          (a_add ops r (a_mul ops (a_half ops) (a_pow2 ops sigma))) T))
    (a_mul ops sigma (a_sqrt ops T)).

(** [(np.log(S / K) + (r - 0.5 * sigma ** 2) * T) / (sigma * np.sqrt(T))] *)
Definition formula_d2 (S K T r sigma : A) : A :=
  a_div ops
    (a_add ops (a_log ops (a_div ops S K))
       (a_mul ops
          (a_sub ops r (a_mul ops (a_half ops) (a_pow2 ops sigma))) T))
    (a_mul ops sigma (a_sqrt ops T)).

(** [S * norm.cdf(d1) - K * np.exp(-r * T) * norm.cdf(d2)] *)
Definition formula_call (S K T r sigma : A) : A :=
  a_sub ops
    (a_mul ops S (a_cdf ops (formula_d1 S K T r sigma)))
    (a_mul ops (a_mul ops K (a_exp ops (a_mul ops (a_neg ops r) T)))
       (a_cdf ops (formula_d2 S K T r sigma))).

(** [K * np.exp(-r * T) * norm.cdf(-d2) - S * norm.cdf(-d1)] *)
Definition formula_put (S K T r sigma : A) : A :=
  a_sub ops
    (a_mul ops (a_mul ops K (a_exp ops (a_mul ops (a_neg ops r) T)))
       (a_cdf ops (a_neg ops (formula_d2 S K T r sigma))))
    (a_mul ops S (a_cdf ops (a_neg ops (formula_d1 S K T r sigma)))).

End Formula.

(** The real numbers with the functions the library ones approximate. *)
Definition real_arithmetic : arithmetic R :=
  {| a_add := Rplus; a_sub := Rminus; a_mul := Rmult; a_div := Rdiv;
     a_neg := Ropp; a_half := / 2; a_pow2 := fun x => x * x;
     a_log := ln; a_exp := exp; a_sqrt := sqrt; a_cdf := NormalCDF.Phi |}.

(** * The program over the extended real numbers

    A value is a real number or one of +inf, -inf and NaN; arithmetic on
    real numbers is exact and a zero has no sign.  The special values
    follow the IEEE rules that numpy applies ([x / 0] is an infinity or
    NaN, [log 0] is -inf, and so on). *)

Inductive float64 : Type :=
| Fin (x : R)
| PInf
| NInf
| NaN.

Inductive sign : Type := Neg | Zero | Pos.

Definition Rsign (x : R) : sign :=
  match total_order_T x 0 with
  | inleft (left _) => Neg
  | inleft (right _) => Zero
  | inright _ => Pos
  end.

Definition sign_opp (s : sign) : sign :=
  match s with Neg => Pos | Zero => Zero | Pos => Neg end.

(** The infinity of a given sign; a zero factor times an infinity is
    NaN. *)
Definition signed_inf (s : sign) : float64 :=
  match s with Neg => NInf | Zero => NaN | Pos => PInf end.

Definition fneg (a : float64) : float64 :=
  match a with
  | Fin x => Fin (- x)
  | PInf => NInf
  | NInf => PInf
  | NaN => NaN
  end.

Definition fadd (a b : float64) : float64 :=
  match a, b with
  | NaN, _ | _, NaN => NaN
  | Fin x, Fin y => Fin (x + y)
  | PInf, NInf | NInf, PInf => NaN
  | PInf, _ | _, PInf => PInf
  | NInf, _ | _, NInf => NInf
  end.

Definition fsub (a b : float64) : float64 := fadd a (fneg b).

Definition fmul (a b : float64) : float64 :=
  match a, b with
  | NaN, _ | _, NaN => NaN
  | Fin x, Fin y => Fin (x * y)
  | Fin x, PInf | PInf, Fin x => signed_inf (Rsign x)
  | Fin x, NInf | NInf, Fin x => signed_inf (sign_opp (Rsign x))
  | PInf, PInf | NInf, NInf => PInf
  | PInf, NInf | NInf, PInf => NInf
  end.

(** numpy division: a finite value over zero is an infinity of the sign
    of the numerator, zero over zero is NaN. *)
Definition fdiv (a b : float64) : float64 :=
  match a, b with
  | NaN, _ | _, NaN => NaN
  | Fin x, Fin y =>
      match Rsign y with
      | Zero => signed_inf (Rsign x)
      | _ => Fin (x / y)
      end
  | Fin _, (PInf | NInf) => Fin 0
  | PInf, Fin y => match Rsign y with Neg => NInf | _ => PInf end
  | NInf, Fin y => match Rsign y with Neg => PInf | _ => NInf end
  | (PInf | NInf), (PInf | NInf) => NaN
  end.

(** [x ** 2] *)
Definition fsquare (a : float64) : float64 :=
  match a with
  | Fin x => Fin (x * x)
  | PInf | NInf => PInf
  | NaN => NaN
  end.

(** [np.log] *)
Definition flog (a : float64) : float64 :=
  match a with
  | Fin x =>
      match Rsign x with
      | Pos => Fin (ln x)
      | Zero => NInf
      | Neg => NaN
      end
  | PInf => PInf
  | NInf | NaN => NaN
  end.

(** [np.exp] *)
Definition fexp (a : float64) : float64 :=
  match a with
  | Fin x => Fin (exp x)
  | PInf => PInf
  | NInf => Fin 0
  | NaN => NaN
  end.

(** [np.sqrt] *)
Definition fsqrt (a : float64) : float64 :=
  match a with
  | Fin x =>
      match Rsign x with
      | Neg => NaN
      | _ => Fin (sqrt x)
      end
  | PInf => PInf
  | NInf | NaN => NaN
  end.

(** [norm.cdf] *)
Definition fcdf (a : float64) : float64 :=
  match a with
  | Fin x => Fin (NormalCDF.Phi x)
  | PInf => Fin 1
  | NInf => Fin 0
  | NaN => NaN
  end.

(** ** Python numbers and exceptions

    A number is a Python [float] (what [st.number_input] and [st.slider]
    return) or a [numpy.float64] scalar (what the numpy functions return
    and what iterating over an array yields).  The two differ in one place
    of this program: [/] on two Python floats raises [ZeroDivisionError]
    when the divisor is zero, while numpy division returns an infinity or
    NaN.  An operation with a numpy operand is carried out by numpy and its
    result is a numpy scalar. *)

Inductive kind : Type := PyFloat | NpFloat64.

Record num : Type := Num { kind_of : kind; val : float64 }.

Inductive exn : Type := ZeroDivisionError | OverflowError.

Inductive result (A : Type) : Type :=
| Ok (a : A)
| Raise (e : exn).

Arguments Ok {A} a.
Arguments Raise {A} e.

Definition bind {A B : Type} (m : result A) (f : A -> result B) : result B :=
  match m with
  | Ok a => f a
  | Raise e => Raise e
  end.

Notation "x <- m ;; f" := (bind m (fun x => f))
  (at level 61, m at next level, right associativity).

Definition join (k1 k2 : kind) : kind :=
  match k1, k2 with
  | PyFloat, PyFloat => PyFloat
  | _, _ => NpFloat64
  end.

Definition py (x : R) : num := Num PyFloat (Fin x).
Definition np (x : R) : num := Num NpFloat64 (Fin x).

Definition add (a b : num) : num :=
  Num (join (kind_of a) (kind_of b)) (fadd (val a) (val b)).

Definition sub (a b : num) : num :=
  Num (join (kind_of a) (kind_of b)) (fsub (val a) (val b)).

Definition mul (a b : num) : num :=
  Num (join (kind_of a) (kind_of b)) (fmul (val a) (val b)).

Definition neg (a : num) : num := Num (kind_of a) (fneg (val a)).

(** [a ** 2].  Over the real numbers a square does not overflow; the
    [OverflowError] of Python is in [Binary64.pow2]. *)
Definition pow2 (a : num) : num := Num (kind_of a) (fsquare (val a)).

Definition is_zero (a : float64) : bool :=
  match a with
  | Fin x => match Rsign x with Zero => true | _ => false end
  | _ => false
  end.

Definition truediv (a b : num) : result num :=
  match kind_of a, kind_of b with
  | PyFloat, PyFloat =>
      if is_zero (val b) then Raise ZeroDivisionError
      else Ok (Num PyFloat (fdiv (val a) (val b)))
  | _, _ => Ok (Num NpFloat64 (fdiv (val a) (val b)))
  end.

Definition np_log (a : num) : num := Num NpFloat64 (flog (val a)).
Definition np_exp (a : num) : num := Num NpFloat64 (fexp (val a)).
Definition np_sqrt (a : num) : num := Num NpFloat64 (fsqrt (val a)).
Definition norm_cdf (a : num) : num := Num NpFloat64 (fcdf (val a)).

(** The literal [0.5]. *)
Definition half : num := py (/ 2).

(** ** The pricing functions *)

Definition black_scholes_call (S K T r sigma : num) : result num :=
  q1 <- truediv S K ;;
  d1 <- truediv (add (np_log q1) (mul (add r (mul half (pow2 sigma))) T))
                (mul sigma (np_sqrt T)) ;;
  q2 <- truediv S K ;;
  d2 <- truediv (add (np_log q2) (mul (sub r (mul half (pow2 sigma))) T))
                (mul sigma (np_sqrt T)) ;;
  Ok (sub (mul S (norm_cdf d1))
          (mul (mul K (np_exp (mul (neg r) T))) (norm_cdf d2))).

Definition black_scholes_put (S K T r sigma : num) : result num :=
  q1 <- truediv S K ;;
  d1 <- truediv (add (np_log q1) (mul (add r (mul half (pow2 sigma))) T))
                (mul sigma (np_sqrt T)) ;;
  q2 <- truediv S K ;;
  d2 <- truediv (add (np_log q2) (mul (sub r (mul half (pow2 sigma))) T))
                (mul sigma (np_sqrt T)) ;;
  Ok (sub (mul (mul K (np_exp (mul (neg r) T))) (norm_cdf (neg d2)))
          (mul S (norm_cdf (neg d1)))).

(** The same expressions over the reals: what the two functions compute
    when every intermediate value is finite. *)

Definition d1_R (S K T r sigma : R) : R :=
  (ln (S / K) + (r + / 2 * (sigma * sigma)) * T) / (sigma * sqrt T).

Definition d2_R (S K T r sigma : R) : R :=
  (ln (S / K) + (r - / 2 * (sigma * sigma)) * T) / (sigma * sqrt T).

Definition call_R (S K T r sigma : R) : R :=
  S * NormalCDF.Phi (d1_R S K T r sigma)
  - K * exp (- r * T) * NormalCDF.Phi (d2_R S K T r sigma).

Definition put_R (S K T r sigma : R) : R :=
  K * exp (- r * T) * NormalCDF.Phi (- d2_R S K T r sigma)
  - S * NormalCDF.Phi (- d1_R S K T r sigma).

(** The formulas as the specification writes them, with [d2] obtained
    from [d1]. *)

Definition spec_d1 (S K T r sigma : R) : R :=
  (ln (S / K) + (r + 0.5 * sigma ^ 2) * T) / (sigma * sqrt T).

Definition spec_d2 (S K T r sigma : R) : R :=
  spec_d1 S K T r sigma - sigma * sqrt T.

Definition spec_call (S K T r sigma : R) : R :=
  S * NormalCDF.Phi (spec_d1 S K T r sigma)
  - K * exp (- (r * T)) * NormalCDF.Phi (spec_d2 S K T r sigma).

Definition spec_put (S K T r sigma : R) : R :=
  K * exp (- (r * T)) * NormalCDF.Phi (- spec_d2 S K T r sigma)
  - S * NormalCDF.Phi (- spec_d1 S K T r sigma).

(** The value of the two functions with kinds and exceptions set aside:
    the same expression on [float64]. *)

Definition d1_f64 (S K T r sigma : float64) : float64 :=
  fdiv (fadd (flog (fdiv S K))
             (fmul (fadd r (fmul (Fin (/ 2)) (fsquare sigma))) T))
       (fmul sigma (fsqrt T)).

Definition d2_f64 (S K T r sigma : float64) : float64 :=
  fdiv (fadd (flog (fdiv S K))
             (fmul (fsub r (fmul (Fin (/ 2)) (fsquare sigma))) T))
       (fmul sigma (fsqrt T)).

Definition call_f64 (S K T r sigma : float64) : float64 :=
  fsub (fmul S (fcdf (d1_f64 S K T r sigma)))
       (fmul (fmul K (fexp (fmul (fneg r) T))) (fcdf (d2_f64 S K T r sigma))).

Definition put_f64 (S K T r sigma : float64) : float64 :=
  fsub (fmul (fmul K (fexp (fmul (fneg r) T)))
             (fcdf (fneg (d2_f64 S K T r sigma))))
       (fmul S (fcdf (fneg (d1_f64 S K T r sigma)))).

(** [S / K] raises exactly when both operands are Python floats and the
    strike is zero. *)
Definition raises_zero_division (S K : num) : bool :=
  match kind_of S, kind_of K with
  | PyFloat, PyFloat => is_zero (val K)
  | _, _ => false
  end.

(** ** The numpy array functions of the sweep

    The values that reach them come from the sliders and the number
    inputs and are finite, so arrays are lists of reals.  The samples of
    [linspace] are exact here; [Binary64.linspace] has the rounded
    ones. *)

(** [np.linspace start stop num], end point included: [num] samples
    [start + i * step], the last one set to [stop]. *)
Definition linspace (start stop : R) (num : nat) : list R :=
  match num with
  | O => []
  | 1%nat => [start]
  | _ =>
      map (fun i => INR i * ((stop - start) / INR (num - 1)) + start)
          (seq 0 (num - 1))
      ++ [stop]
  end.

(** [np.append arr x] *)
Definition np_append (arr : list R) (x : R) : list R := arr ++ [x].

Fixpoint insert (x : R) (l : list R) : list R :=
  match l with
  | [] => [x]
  | y :: l' => if Rle_dec x y then x :: l else y :: insert x l'
  end.

Fixpoint sort (l : list R) : list R :=
  match l with
  | [] => []
  | x :: l' => insert x (sort l')
  end.

(** Drop every element equal to its successor. *)
Fixpoint dedup (l : list R) : list R :=
  match l with
  | [] => []
  | x :: l' =>
      match l' with
      | [] => [x]
      | y :: _ => if Req_dec_T x y then dedup l' else x :: dedup l'
      end
  end.

(** [np.unique arr]: sort, then keep one element of each run of equal
    values. *)
Definition np_unique (arr : list R) : list R := dedup (sort arr).

(** ** The sweep of [main.py] *)

Definition spot_prices (min_S max_S : R) : list R :=
  linspace min_S max_S 10.

Definition volatilities (min_sigma max_sigma sigma : R) : list R :=
  np_unique (np_append (linspace min_sigma max_sigma 10) sigma).

(** A list comprehension whose body may raise. *)
Fixpoint mapM {A B : Type} (f : A -> result B) (l : list A)
  : result (list B) :=
  match l with
  | [] => Ok []
  | a :: l' => b <- f a ;; bs <- mapM f l' ;; Ok (b :: bs)
  end.

(** The rows follow the volatilities, the columns the spot prices.  The
    loop variables are elements of numpy arrays (the [S] of a
    comprehension is local to it); strike, maturity and rate are the
    Python floats of the number inputs. *)
Definition call_prices (K T r : R) (spots vols : list R)
  : result (list (list num)) :=
  mapM (fun v =>
          mapM (fun S => black_scholes_call (np S) (py K) (py T) (py r) (np v))
               spots)
       vols.

Definition put_prices (K T r : R) (spots vols : list R)
  : result (list (list num)) :=
  mapM (fun v =>
          mapM (fun S => black_scholes_put (np S) (py K) (py T) (py r) (np v))
               spots)
       vols.

(** The traces of the line plot against the spot price, at the volatility
    of the number input. *)
Definition line_spot_call (K T r sigma : R) (spots : list R)
  : result (list num) :=
  mapM (fun S => black_scholes_call (np S) (py K) (py T) (py r) (py sigma))
       spots.

Definition line_spot_put (K T r sigma : R) (spots : list R)
  : result (list num) :=
  mapM (fun S => black_scholes_put (np S) (py K) (py T) (py r) (py sigma))
       spots.

(** The traces of the line plot against the volatility, at the spot price
    of the number input. *)
Definition line_volatility_call (S K T r : R) (vols : list R)
  : result (list num) :=
  mapM (fun v => black_scholes_call (py S) (py K) (py T) (py r) (np v)) vols.

Definition line_volatility_put (S K T r : R) (vols : list R)
  : result (list num) :=
  mapM (fun v => black_scholes_put (py S) (py K) (py T) (py r) (np v)) vols.

(** Cell [[i][j]] of a grid. *)
Definition cell {A : Type} (grid : list (list A)) (i j : nat) : option A :=
  match nth_error grid i with
  | Some row => nth_error row j
  | None => None
  end.

(** The headline prices shown above the charts. *)
Definition call_price (S K T r sigma : R) : result num :=
  black_scholes_call (py S) (py K) (py T) (py r) (py sigma).

Definition put_price (S K T r sigma : R) : result num :=
  black_scholes_put (py S) (py K) (py T) (py r) (py sigma).

(** [arr.flatten()] of a two-dimensional array: the rows one after the
    other. *)
Definition flatten {A : Type} (grid : list (list A)) : list A := concat grid.

(** * The program in binary64

    The numbers of the program are IEEE binary64 values.  In this module
    they are Rocq's primitive floats, whose operations round to nearest,
    overflow to an infinity, underflow, keep the sign of zero and
    propagate NaN as the hardware does.

    Four functions the program calls are library code with no definition
    here: [np.log], the power [x ** 2] (the C library's [pow]), [np.exp]
    and [scipy.stats.norm.cdf].  At ordinary arguments each returns some
    binary64 approximation; these values are the fields of a [library],
    over which every statement of this module is quantified.  At special
    arguments the results are fixed by IEEE 754 and the C standard (and,
    for [norm.cdf], by scipy's treatment of the ends of the support), and
    are built into [flog], [fpow2], [fexp] and [fcdf].  Addition,
    subtraction, multiplication, division and square root are correctly
    rounded and need no parameter. *)

Module Binary64.

Local Open Scope float_scope.

(** The library functions at ordinary arguments.  The one property
    assumed is that the power of a number whose rounded product with
    itself is finite does not come back infinite.  The largest such number
    is the float before [2 ^ 512]; its exact square lies almost one unit
    in the last place below the largest float. *)
Record library : Type := Library {
  approx_log : float -> float;
  approx_pow2 : float -> float;
  approx_exp : float -> float;
  approx_cdf : float -> float;
  approx_pow2_finite :
    forall x, is_infinity (x * x) = false ->
              is_infinity (approx_pow2 x) = false }.

(** The assumption can be met: a library that squares by one rounded
    product (its other three functions are coarse). *)
Definition coarse_library : library :=
  {| approx_log := fun x => x - 1;
     approx_pow2 := fun x => x * x;
     approx_exp := fun x => 1 + x;
     approx_cdf := fun _ => 0x1p-1;
     approx_pow2_finite := fun x H => H |}.

Section Library.

Variable L : library.

(** [np.log]: -inf at a zero of either sign, NaN below zero and at NaN,
    +inf at +inf, and +0 at 1. *)
Definition flog (x : float) : float :=
  match Prim2SF x with
  | S754_nan => nan
  | S754_zero _ => neg_infinity
  | S754_infinity false => infinity
  | S754_infinity true => nan
  | S754_finite true _ _ => nan
  | S754_finite false _ _ => if x =? 1 then 0 else approx_log L x
  end.

(** [x ** 2]: +0 at a zero, +inf at an infinity, NaN at NaN, and +inf
    when the square overflows. *)
Definition fpow2 (x : float) : float :=
  match Prim2SF x with
  | S754_nan => nan
  | S754_infinity _ => infinity
  | S754_zero _ => 0
  | S754_finite _ _ _ =>
      if is_infinity (x * x) then infinity else approx_pow2 L x
  end.

(** [np.exp]: 1 at a zero, +0 at -inf, +inf at +inf. *)
Definition fexp (x : float) : float :=
  match Prim2SF x with
  | S754_nan => nan
  | S754_zero _ => 1
  | S754_infinity false => infinity
  | S754_infinity true => 0
  | S754_finite _ _ _ => approx_exp L x
  end.

(** [norm.cdf]: 1 at +inf, 0 at -inf, NaN at NaN. *)
Definition fcdf (x : float) : float :=
  match Prim2SF x with
  | S754_nan => nan
  | S754_infinity false => 1
  | S754_infinity true => 0
  | _ => approx_cdf L x
  end.

(** Binary64 with the library: the arithmetic of the program. *)
Definition float_arithmetic : arithmetic float :=
  {| a_add := PrimFloat.add; a_sub := PrimFloat.sub;
     a_mul := PrimFloat.mul; a_div := PrimFloat.div;
     a_neg := PrimFloat.opp; a_half := 0x1p-1;
     a_pow2 := fpow2; a_log := flog; a_exp := fexp;
     a_sqrt := PrimFloat.sqrt; a_cdf := fcdf |}.

(** ** Python numbers

    A Python [float] or a [numpy.float64] scalar, as in the reading over
    the reals; an operation with a numpy operand is numpy's. *)

Record num : Type := Num { kind_of : kind; val : float }.

Definition py (x : float) : num := Num PyFloat x.
Definition np (x : float) : num := Num NpFloat64 x.

Definition add (a b : num) : num :=
  Num (join (kind_of a) (kind_of b)) (val a + val b).

Definition sub (a b : num) : num :=
  Num (join (kind_of a) (kind_of b)) (val a - val b).

Definition mul (a b : num) : num :=
  Num (join (kind_of a) (kind_of b)) (val a * val b).

Definition neg (a : num) : num := Num (kind_of a) (- val a).

(** [a / b]: Python raises [ZeroDivisionError] when both operands are
    Python floats and the divisor is a zero of either sign; numpy divides
    by the IEEE rules. *)
Definition truediv (a b : num) : result num :=
  match kind_of a, kind_of b with
  | PyFloat, PyFloat =>
      if PrimFloat.is_zero (val b) then Raise ZeroDivisionError
      else Ok (Num PyFloat (val a / val b))
  | _, _ => Ok (Num NpFloat64 (val a / val b))
  end.

(** [a ** 2]: Python raises [OverflowError] when the power of a finite
    float comes back infinite; numpy returns the infinity. *)
Definition pow2 (a : num) : result num :=
  match kind_of a with
  | PyFloat =>
      if is_finite (val a) && is_infinity (fpow2 (val a))
      then Raise OverflowError
      else Ok (Num PyFloat (fpow2 (val a)))
  | NpFloat64 => Ok (Num NpFloat64 (fpow2 (val a)))
  end.

Definition np_log (a : num) : num := Num NpFloat64 (flog (val a)).
Definition np_exp (a : num) : num := Num NpFloat64 (fexp (val a)).
Definition np_sqrt (a : num) : num := Num NpFloat64 (PrimFloat.sqrt (val a)).
Definition norm_cdf (a : num) : num := Num NpFloat64 (fcdf (val a)).

(** The literal [0.5]. *)
Definition half : num := py 0x1p-1.

(** ** The pricing functions

    The statements run in the order Python evaluates them: in each of the
    first two lines the quotient [S / K] comes before the power
    [sigma ** 2]. *)

Definition black_scholes_call (S K T r sigma : num) : result num :=
  q1 <- truediv S K ;;
  v1 <- pow2 sigma ;;
  d1 <- truediv (add (np_log q1) (mul (add r (mul half v1)) T))
                (mul sigma (np_sqrt T)) ;;
  q2 <- truediv S K ;;
  v2 <- pow2 sigma ;;
  d2 <- truediv (add (np_log q2) (mul (sub r (mul half v2)) T))
                (mul sigma (np_sqrt T)) ;;
  Ok (sub (mul S (norm_cdf d1))
          (mul (mul K (np_exp (mul (neg r) T))) (norm_cdf d2))).

Definition black_scholes_put (S K T r sigma : num) : result num :=
  q1 <- truediv S K ;;
  v1 <- pow2 sigma ;;
  d1 <- truediv (add (np_log q1) (mul (add r (mul half v1)) T))
                (mul sigma (np_sqrt T)) ;;
  q2 <- truediv S K ;;
  v2 <- pow2 sigma ;;
  d2 <- truediv (add (np_log q2) (mul (sub r (mul half v2)) T))
                (mul sigma (np_sqrt T)) ;;
  Ok (sub (mul (mul K (np_exp (mul (neg r) T))) (norm_cdf (neg d2)))
          (mul S (norm_cdf (neg d1)))).

(** The grids, the traces and the headline prices, as over the reals. *)

Definition call_prices (K T r : float) (spots vols : list float)
  : result (list (list num)) :=
  mapM (fun v =>
          mapM (fun S => black_scholes_call (np S) (py K) (py T) (py r) (np v))
               spots)
       vols.

Definition put_prices (K T r : float) (spots vols : list float)
  : result (list (list num)) :=
  mapM (fun v =>
          mapM (fun S => black_scholes_put (np S) (py K) (py T) (py r) (np v))
               spots)
       vols.

Definition line_spot_call (K T r sigma : float) (spots : list float)
  : result (list num) :=
  mapM (fun S => black_scholes_call (np S) (py K) (py T) (py r) (py sigma))
       spots.

Definition line_spot_put (K T r sigma : float) (spots : list float)
  : result (list num) :=
  mapM (fun S => black_scholes_put (np S) (py K) (py T) (py r) (py sigma))
       spots.

Definition line_volatility_call (S K T r : float) (vols : list float)
  : result (list num) :=
  mapM (fun v => black_scholes_call (py S) (py K) (py T) (py r) (np v)) vols.

Definition line_volatility_put (S K T r : float) (vols : list float)
  : result (list num) :=
  mapM (fun v => black_scholes_put (py S) (py K) (py T) (py r) (np v)) vols.

Definition call_price (S K T r sigma : float) : result num :=
  black_scholes_call (py S) (py K) (py T) (py r) (py sigma).

Definition put_price (S K T r sigma : float) : result num :=
  black_scholes_put (py S) (py K) (py T) (py r) (py sigma).

End Library.

(** The two conditions under which the pricing functions raise. *)

Definition raises_zero_division (S K : num) : bool :=
  match kind_of S, kind_of K with
  | PyFloat, PyFloat => PrimFloat.is_zero (val K)
  | _, _ => false
  end.

Definition raises_overflow (sigma : num) : bool :=
  match kind_of sigma with
  | PyFloat => is_finite (val sigma) && is_infinity (val sigma * val sigma)
  | NpFloat64 => false
  end.

(** The real number a finite float stands for (0 for the others). *)

Definition SF2R (x : spec_float) : R :=
  match x with
  | S754_finite s m e => (IZR (cond_Zopp s (Z.pos m)) * powerRZ 2 e)%R
  | _ => 0%R
  end.

Definition F2R (x : float) : R := SF2R (Prim2SF x).

(** ** The axes in binary64 *)

Definition float_of_nat (n : nat) : float :=
  of_uint63 (Uint63.of_Z (Z.of_nat n)).

(** [np.linspace start stop num], end point included.  numpy computes
    [step = (stop - start) / (num - 1)] and the samples
    [arange(0, num) * step + start], each product and each sum rounded
    (when the step is zero: [arange(0, num) / (num - 1) * (stop - start)
    + start]), then sets the last sample to [stop]. *)
Definition linspace (start stop : float) (num : nat) : list float :=
  match num with
  | O => []
  | 1%nat => [0 * (stop - start) + start]
  | _ =>
      let div := float_of_nat (num - 1) in
      let delta := stop - start in
      let step := delta / div in
      map (fun i =>
             (if step =? 0 then float_of_nat i / div * delta
              else float_of_nat i * step) + start)
          (seq 0 (num - 1))
      ++ [stop]
  end.

Definition np_append (arr : list float) (x : float) : list float :=
  arr ++ [x].

Fixpoint insert (x : float) (l : list float) : list float :=
  match l with
  | [] => [x]
  | y :: l' => if x <=? y then x :: l else y :: insert x l'
  end.

Fixpoint sort (l : list float) : list float :=
  match l with
  | [] => []
  | x :: l' => insert x (sort l')
  end.

(** The elements of a sorted array that differ from their predecessor
    [prev]: numpy's mask [aux[1:] != aux[:-1]]. *)
Fixpoint unique_after (prev : float) (l : list float) : list float :=
  match l with
  | [] => []
  | y :: l' =>
      if prev =? y then unique_after y l' else y :: unique_after y l'
  end.

(** [np.unique arr]: sort, keep the first element and every element that
    differs from the one before it. *)
Definition np_unique (arr : list float) : list float :=
  match sort arr with
  | [] => []
  | x :: l => x :: unique_after x l
  end.

Definition spot_prices (min_S max_S : float) : list float :=
  linspace min_S max_S 10.

Definition volatilities (min_sigma max_sigma sigma : float) : list float :=
  np_unique (np_append (linspace min_sigma max_sigma 10) sigma).

(** An array without NaN. *)
Definition numbers (l : list float) : Prop :=
  Forall (fun x => is_nan x = false) l.

(** An order-preserving integer for every float that is a number: the
    exponent and the mantissa of the datum, in this order. *)
Definition SFkey (x : spec_float) : Z :=
  match x with
  | S754_zero _ | S754_nan => 0
  | S754_infinity s => cond_Zopp s 36893488147419103232
  | S754_finite s m e =>
      cond_Zopp s ((e + 1075) * 9007199254740992 + Z.pos m)
  end.

Definition key (x : float) : Z := SFkey (Prim2SF x).

Definition key_le (a b : float) : Prop := (key a <= key b)%Z.
Definition key_lt (a b : float) : Prop := (key a < key b)%Z.

(** [x] is zero or NaN. *)
Definition zero_or_nan (x : float) : Prop :=
  Prim2SF x = S754_nan \/ exists s, Prim2SF x = S754_zero s.

(** ** The script

    The lines of [main.py] that compute: the headline prices (53-54), the
    axes (83-87), the grids (89-90), the traces against the spot price
    (128-129) and against the volatility (135-136).  An exception in one
    line ends the run. *)

Record charts : Type := Charts {
  headline_call : num;
  headline_put : num;
  spot_axis : list float;
  volatility_axis : list float;
  call_grid : list (list num);
  put_grid : list (list num);
  spot_call_trace : list num;
  spot_put_trace : list num;
  volatility_call_trace : list num;
  volatility_put_trace : list num }.

Definition script (L : library)
           (S K T r sigma min_S max_S min_sigma max_sigma : float)
  : result charts :=
  c <- call_price L S K T r sigma ;;
  p <- put_price L S K T r sigma ;;
  cg <- call_prices L K T r (spot_prices min_S max_S)
          (volatilities min_sigma max_sigma sigma) ;;
  pg <- put_prices L K T r (spot_prices min_S max_S)
          (volatilities min_sigma max_sigma sigma) ;;
  sc <- line_spot_call L K T r sigma (spot_prices min_S max_S) ;;
  sp <- line_spot_put L K T r sigma (spot_prices min_S max_S) ;;
  vc <- line_volatility_call L S K T r
          (volatilities min_sigma max_sigma sigma) ;;
  vp <- line_volatility_put L S K T r
          (volatilities min_sigma max_sigma sigma) ;;
  Ok (Charts c p (spot_prices min_S max_S)
        (volatilities min_sigma max_sigma sigma) cg pg sc sp vc vp).

End Binary64.

(** * Facts about the reading over the reals *)

(** ** Signs of reals *)

Lemma Rsign_pos x : 0 < x -> Rsign x = Pos.
Proof.
  intro H. unfold Rsign.
  destruct (total_order_T x 0) as [[?|?]|?]; lra || reflexivity.
Qed.

Lemma Rsign_zero : Rsign 0 = Zero.
Proof.
  unfold Rsign. destruct (total_order_T 0 0) as [[?|?]|?]; lra || reflexivity.
Qed.

Lemma Rsign_Zero_iff x : Rsign x = Zero <-> x = 0.
Proof.
  unfold Rsign. destruct (total_order_T x 0) as [[?|?]|?];
    split; intro; try discriminate; try lra; reflexivity.
Qed.

(** ** The pricing functions as total functions with one exception *)

Lemma black_scholes_call_eq S K T r sigma :
  black_scholes_call S K T r sigma =
  if raises_zero_division S K then Raise ZeroDivisionError
  else Ok (Num NpFloat64
             (call_f64 (val S) (val K) (val T) (val r) (val sigma))).
Proof.
  destruct S as [kS vS], K as [kK vK], T as [kT vT], r as [kr vr],
    sigma as [ks vs].
  unfold black_scholes_call, raises_zero_division, truediv; simpl.
  destruct kS, kK; simpl; try destruct (is_zero vK); simpl;
    destruct kT, kr, ks; reflexivity.
Qed.

Lemma black_scholes_put_eq S K T r sigma :
  black_scholes_put S K T r sigma =
  if raises_zero_division S K then Raise ZeroDivisionError
  else Ok (Num NpFloat64
             (put_f64 (val S) (val K) (val T) (val r) (val sigma))).
Proof.
  destruct S as [kS vS], K as [kK vK], T as [kT vT], r as [kr vr],
    sigma as [ks vs].
  unfold black_scholes_put, raises_zero_division, truediv; simpl.
  destruct kS, kK; simpl; try destruct (is_zero vK); simpl;
    destruct kT, kr, ks; reflexivity.
Qed.

Lemma raises_zero_division_nonzero kS kK s k :
  k <> 0 -> raises_zero_division (Num kS (Fin s)) (Num kK (Fin k)) = false.
Proof.
  intro Hk. unfold raises_zero_division; simpl.
  destruct kS, kK; try reflexivity.
  destruct (Rsign k) eqn:E; try reflexivity.
  apply Rsign_Zero_iff in E. contradiction.
Qed.

(** The real-valued expressions are the formula over the real numbers. *)

Lemma call_R_formula S K T r sigma :
  call_R S K T r sigma = formula_call real_arithmetic S K T r sigma.
Proof. reflexivity. Qed.

Lemma put_R_formula S K T r sigma :
  put_R S K T r sigma = formula_put real_arithmetic S K T r sigma.
Proof. reflexivity. Qed.

(** ** The closed form of the specification *)

Section ValidInputs.

Variables (s k t r sg : R).
Hypotheses (Ht : 0 < t) (Hsg : 0 < sg).


(** The code computes [d2] by its own quotient; it is [d1] less
    [sigma * sqrt T]. *)
Lemma d2_R_d1_R : d2_R s k t r sg = d1_R s k t r sg - sg * sqrt t.
Proof.
  unfold d1_R, d2_R.
  assert (Hq : 0 < sqrt t) by (apply sqrt_lt_R0; assumption).
  assert (Hsq : sqrt t * sqrt t = t) by (apply sqrt_sqrt; lra).
  set (q := sqrt t) in *. rewrite <- Hsq.
  field. lra.
Qed.

Lemma spec_call_call_R : spec_call s k t r sg = call_R s k t r sg.
Proof.
  unfold spec_call, spec_d2.
  replace (spec_d1 s k t r sg) with (d1_R s k t r sg).
  - rewrite <- d2_R_d1_R. unfold call_R.
    replace (- (r * t)) with (- r * t) by ring. reflexivity.
  - unfold spec_d1, d1_R.
    replace (0.5 * sg ^ 2) with (/ 2 * (sg * sg)) by lra. reflexivity.
Qed.

Lemma spec_put_put_R : spec_put s k t r sg = put_R s k t r sg.
Proof.
  unfold spec_put, spec_d2.
  replace (spec_d1 s k t r sg) with (d1_R s k t r sg).
  - rewrite <- d2_R_d1_R. unfold put_R.
    replace (- (r * t)) with (- r * t) by ring. reflexivity.
  - unfold spec_d1, d1_R.
    replace (0.5 * sg ^ 2) with (/ 2 * (sg * sg)) by lra. reflexivity.
Qed.

End ValidInputs.

(** ** Analysis of the price as a function of the logarithm of the spot

    With [B] the discounted strike and [v = sigma * sqrt T], the call
    price at spot [exp x] is [core_log B v x]; the put price is the same
    expression with the roles of spot and discounted strike exchanged. *)

Section Core.

Import NormalCDF.

Variables (B v : R).
Hypotheses (HB : 0 < B) (Hv : 0 < v).










End Core.


(** The prices in terms of [core_log]. *)

Section PricesAsCore.

Import NormalCDF.

Variables (s k t r sg : R).
Hypotheses (Hs : 0 < s) (Hk : 0 < k) (Ht : 0 < t) (Hsg : 0 < sg).







End PricesAsCore.




(** ** Zero volatility or zero maturity

    The quotient defining [d1] and [d2] then has a zero divisor, and both
    numerators reduce to [ln (S / K) + r * T]. *)

Section DegenerateInputs.

Variables (s k t r sg : R).
Hypotheses (Hs : 0 < s) (Hk : 0 < k) (Ht : 0 <= t) (Hsg : 0 <= sg).
Hypothesis Hdeg : sg = 0 \/ t = 0.

Lemma fsqrt_nonneg : fsqrt (Fin t) = Fin (sqrt t).
Proof.
  simpl. destruct (Rsign t) eqn:E; try reflexivity.
  unfold Rsign in E. destruct (total_order_T t 0) as [[?|?]|?];
    try discriminate; lra.
Qed.

Lemma denominator_zero : sg * sqrt t = 0.
Proof. destruct Hdeg as [->| ->]; [|rewrite sqrt_0]; ring. Qed.

Lemma d1_f64_degenerate :
  d1_f64 (Fin s) (Fin k) (Fin t) (Fin r) (Fin sg)
  = signed_inf (Rsign (ln (s / k) + r * t)).
Proof.
  assert (Hq : 0 < s / k) by (apply Rdiv_lt_0_compat; assumption).
  unfold d1_f64. rewrite fsqrt_nonneg. simpl.
  rewrite (Rsign_pos _ Hk); simpl. rewrite (Rsign_pos _ Hq); simpl.
  rewrite denominator_zero, Rsign_zero.
  do 2 f_equal. destruct Hdeg as [->| ->]; ring.
Qed.

Lemma d2_f64_degenerate :
  d2_f64 (Fin s) (Fin k) (Fin t) (Fin r) (Fin sg)
  = signed_inf (Rsign (ln (s / k) + r * t)).
Proof.
  assert (Hq : 0 < s / k) by (apply Rdiv_lt_0_compat; assumption).
  unfold d2_f64. rewrite fsqrt_nonneg. simpl.
  rewrite (Rsign_pos _ Hk); simpl. rewrite (Rsign_pos _ Hq); simpl.
  rewrite denominator_zero, Rsign_zero.
  do 2 f_equal. destruct Hdeg as [->| ->]; ring.
Qed.

Lemma degenerate_at_the_money :
  ln (s / k) + r * t = 0 ->
  call_f64 (Fin s) (Fin k) (Fin t) (Fin r) (Fin sg) = NaN /\
  put_f64 (Fin s) (Fin k) (Fin t) (Fin r) (Fin sg) = NaN.
Proof.
  intro Hn. unfold call_f64, put_f64.
  rewrite d1_f64_degenerate, d2_f64_degenerate, Hn, Rsign_zero.
  split; reflexivity.
Qed.

End DegenerateInputs.

(** ** Sorting and removal of duplicates *)

Lemma insert_In x l y : In y (insert x l) <-> y = x \/ In y l.
Proof.
  induction l as [|z l IH]; simpl.
  - intuition.
  - destruct (Rle_dec x z); simpl; rewrite ?IH; intuition.
Qed.

Lemma sort_In l y : In y (sort l) <-> In y l.
Proof.
  induction l as [|x l IH]; simpl; [tauto|].
  rewrite insert_In, IH. intuition.
Qed.

Lemma insert_length x l : length (insert x l) = Datatypes.S (length l).
Proof.
  induction l as [|z l IH]; simpl; [reflexivity|].
  destruct (Rle_dec x z); simpl; [reflexivity|now rewrite IH].
Qed.

Lemma sort_length l : length (sort l) = length l.
Proof.
  induction l as [|x l IH]; simpl; [reflexivity|].
  now rewrite insert_length, IH.
Qed.

Lemma insert_sorted x l :
  StronglySorted Rle l -> StronglySorted Rle (insert x l).
Proof.
  induction 1 as [|z l Hl IH Hz]; simpl.
  - constructor; constructor.
  - destruct (Rle_dec x z) as [Hxz|Hxz].
    + constructor; [constructor; assumption|].
      constructor; [assumption|].
      rewrite Forall_forall in Hz |- *. intros y Hy.
      specialize (Hz y Hy). lra.
    + constructor; [assumption|].
      rewrite Forall_forall in Hz |- *. intros y Hy.
      apply insert_In in Hy. destruct Hy as [->|Hy]; [lra|auto].
Qed.

Lemma sort_sorted l : StronglySorted Rle (sort l).
Proof.
  induction l as [|x l IH]; simpl; [constructor|].
  now apply insert_sorted.
Qed.

Lemma insert_NoDup x l : ~ In x l -> NoDup l -> NoDup (insert x l).
Proof.
  intros Hx Hl. induction Hl as [|z l Hz Hl IH]; simpl.
  - constructor; [intros []|constructor].
  - destruct (Rle_dec x z).
    + constructor; [assumption|constructor; assumption].
    + constructor.
      * rewrite insert_In. simpl in Hx. intuition.
      * apply IH. simpl in Hx. intuition.
Qed.

Lemma sort_NoDup l : NoDup l -> NoDup (sort l).
Proof.
  induction 1 as [|x l Hx Hl IH]; simpl; [constructor|].
  apply insert_NoDup; [now rewrite sort_In|assumption].
Qed.

Lemma dedup_In l y : In y (dedup l) <-> In y l.
Proof.
  induction l as [|x l IH]; [tauto|].
  destruct l as [|z l].
  - simpl. tauto.
  - change (dedup (x :: z :: l))
      with (if Req_dec_T x z then dedup (z :: l) else x :: dedup (z :: l)).
    destruct (Req_dec_T x z) as [->|Hne].
    + rewrite IH. simpl. tauto.
    + simpl In at 1. rewrite IH. simpl. tauto.
Qed.

Lemma dedup_sorted l :
  StronglySorted Rle l -> StronglySorted Rlt (dedup l).
Proof.
  induction 1 as [|x l Hl IH Hx]; [constructor|].
  destruct l as [|z l].
  - simpl. constructor; constructor.
  - change (dedup (x :: z :: l))
      with (if Req_dec_T x z then dedup (z :: l) else x :: dedup (z :: l)).
    destruct (Req_dec_T x z) as [->|Hne]; [assumption|].
    constructor; [assumption|].
    rewrite Forall_forall in Hx |- *. intros y Hy.
    apply (proj1 (dedup_In _ _)) in Hy. simpl in Hy.
    pose proof (Hx z (or_introl eq_refl)) as Hxz.
    destruct Hy as [<-|Hy]; [lra|].
    inversion Hl as [|? ? _ Hz]; subst.
    rewrite Forall_forall in Hz. specialize (Hz y Hy). lra.
Qed.

Lemma dedup_strict l : StronglySorted Rlt l -> dedup l = l.
Proof.
  induction 1 as [|x l Hl IH Hx]; [reflexivity|].
  destruct l as [|z l]; [reflexivity|].
  change (dedup (x :: z :: l))
    with (if Req_dec_T x z then dedup (z :: l) else x :: dedup (z :: l)).
  inversion Hx as [|? ? Hxz _]; subst.
  destruct (Req_dec_T x z); [lra|]. now rewrite IH.
Qed.

Lemma sorted_NoDup_strict l :
  StronglySorted Rle l -> NoDup l -> StronglySorted Rlt l.
Proof.
  induction 1 as [|x l Hl IH Hx]; intro Hnd; [constructor|].
  inversion Hnd as [|? ? Hnx Hnl]; subst.
  constructor; [auto|].
  rewrite Forall_forall in Hx |- *. intros y Hy.
  specialize (Hx y Hy).
  destruct (Req_dec x y) as [->|Hne]; [contradiction|lra].
Qed.

Lemma strict_sorted_NoDup l : StronglySorted Rlt l -> NoDup l.
Proof.
  induction 1 as [|x l Hl IH Hx]; constructor; [|assumption].
  intro Hin. rewrite Forall_forall in Hx. specialize (Hx x Hin). lra.
Qed.

(** A strictly increasing list is determined by its elements. *)
Lemma strict_sorted_ext l1 :
  forall l2,
    StronglySorted Rlt l1 -> StronglySorted Rlt l2 ->
    (forall x, In x l1 <-> In x l2) -> l1 = l2.
Proof.
  induction l1 as [|a l1 IH]; intros l2 H1 H2 Hext.
  - destruct l2 as [|b l2]; [reflexivity|].
    destruct (proj2 (Hext b) (or_introl eq_refl)).
  - destruct l2 as [|b l2].
    { destruct (proj1 (Hext a) (or_introl eq_refl)). }
    inversion H1 as [|? ? H1' Ha]; subst.
    inversion H2 as [|? ? H2' Hb]; subst.
    rewrite Forall_forall in Ha, Hb.
    assert (Hab : a = b).
    { destruct (proj1 (Hext a) (or_introl eq_refl)) as [E|Hin]; [auto|].
      destruct (proj2 (Hext b) (or_introl eq_refl)) as [E|Hin']; [auto|].
      specialize (Ha b Hin'). specialize (Hb a Hin). lra. }
    subst b. f_equal. apply IH; try assumption.
    intro x. split; intro Hx.
    + destruct (proj1 (Hext x) (or_intror Hx)) as [E|Hin]; [|assumption].
      subst x. specialize (Ha a Hx). lra.
    + destruct (proj2 (Hext x) (or_intror Hx)) as [E|Hin]; [|assumption].
      subst x. specialize (Hb a Hx). lra.
Qed.

Lemma np_unique_In l y : In y (np_unique l) <-> In y l.
Proof. unfold np_unique. now rewrite dedup_In, sort_In. Qed.

Lemma np_unique_sorted l : StronglySorted Rlt (np_unique l).
Proof. apply dedup_sorted, sort_sorted. Qed.

Lemma np_unique_char l l' :
  StronglySorted Rlt l' -> (forall x, In x l' <-> In x l) ->
  np_unique l = l'.
Proof.
  intros Hs Hext. apply strict_sorted_ext.
  - apply np_unique_sorted.
  - assumption.
  - intro x. rewrite np_unique_In. symmetry. apply Hext.
Qed.

Lemma np_unique_length_NoDup l :
  NoDup l -> length (np_unique l) = length l.
Proof.
  intro Hnd. unfold np_unique.
  rewrite dedup_strict, sort_length; [reflexivity|].
  apply sorted_NoDup_strict; [apply sort_sorted|now apply sort_NoDup].
Qed.

(** ** The axes *)

Lemma linspace_10 a b :
  linspace a b 10 = map (fun i => INR i * ((b - a) / 9) + a) (seq 0 10).
Proof.
  unfold linspace. simpl.
  repeat (f_equal; [lra|]).
  f_equal. lra.
Qed.

Lemma linspace_length a b : length (linspace a b 10) = 10%nat.
Proof. rewrite linspace_10, length_map, length_seq. reflexivity. Qed.

Lemma linspace_NoDup a b : a <> b -> NoDup (linspace a b 10).
Proof.
  intro Hab. rewrite linspace_10.
  apply Injective_map_NoDup; [|apply seq_NoDup].
  intros i j Hij. apply INR_eq.
  assert (Hstep : (b - a) / 9 <> 0) by (intro E; lra).
  apply Rmult_eq_reg_r with ((b - a) / 9); [lra|assumption].
Qed.

Lemma linspace_const a x : In x (linspace a a 10) <-> x = a.
Proof.
  rewrite linspace_10, in_map_iff. split.
  - intros [i [<- _]]. lra.
  - intros ->. exists 0%nat. split; [simpl; lra|apply in_seq; lia].
Qed.

Lemma volatilities_In a b sigma x :
  In x (volatilities a b sigma) <-> In x (linspace a b 10) \/ x = sigma.
Proof.
  unfold volatilities, np_append. rewrite np_unique_In, in_app_iff.
  simpl. intuition.
Qed.

Lemma volatilities_length a b sigma :
  length (volatilities a b sigma) =
  ((if Req_dec_T a b then 1 else 10)
   + (if in_dec Req_dec_T sigma (linspace a b 10) then 0 else 1))%nat.
Proof.
  unfold volatilities, np_append.
  destruct (Req_dec_T a b) as [<-|Hab];
    destruct (in_dec Req_dec_T sigma _) as [Hin|Hin].
  - apply linspace_const in Hin. subst sigma.
    rewrite (np_unique_char _ [a]); [reflexivity|repeat constructor|].
    intro x. rewrite in_app_iff, linspace_const. simpl. intuition.
  - rewrite linspace_const in Hin.
    destruct (Rlt_dec a sigma) as [Hlt|Hge].
    + rewrite (np_unique_char _ [a; sigma]); [reflexivity| |].
      { repeat constructor. assumption. }
      intro x. rewrite in_app_iff, linspace_const. simpl. intuition.
    + rewrite (np_unique_char _ [sigma; a]); [reflexivity| |].
      { repeat constructor. lra. }
      intro x. rewrite in_app_iff, linspace_const. simpl. intuition.
  - rewrite (np_unique_char _ (np_unique (linspace a b 10))).
    + rewrite np_unique_length_NoDup by (apply linspace_NoDup; assumption).
      apply linspace_length.
    + apply np_unique_sorted.
    + intro x. rewrite np_unique_In, in_app_iff. simpl.
      intuition; subst; assumption.
  - rewrite np_unique_length_NoDup.
    + rewrite length_app, linspace_length. reflexivity.
    + apply NoDup_app; [apply linspace_NoDup; assumption| |].
      { constructor; [intros []|constructor]. }
      intros x Hx [<-|[]]. contradiction.
Qed.

(** ** The grids *)

Lemma mapM_Ok {A B : Type} (f : A -> result B) (g : A -> B) (l : list A) :
  (forall a, In a l -> f a = Ok (g a)) -> mapM f l = Ok (map g l).
Proof.
  induction l as [|a l IH]; intro Hf; simpl; [reflexivity|].
  rewrite (Hf a (or_introl eq_refl)). simpl.
  rewrite IH by (intros; apply Hf; now right). reflexivity.
Qed.

(** The value of a grid cell: the spot is a numpy scalar, so the pricing
    call cannot raise. *)
Definition call_cell (K T r S v : R) : num :=
  Num NpFloat64 (call_f64 (Fin S) (Fin K) (Fin T) (Fin r) (Fin v)).

Definition put_cell (K T r S v : R) : num :=
  Num NpFloat64 (put_f64 (Fin S) (Fin K) (Fin T) (Fin r) (Fin v)).

Lemma black_scholes_call_np K T r S kv v :
  black_scholes_call (np S) (py K) (py T) (py r) (Num kv (Fin v))
  = Ok (call_cell K T r S v).
Proof. rewrite black_scholes_call_eq. reflexivity. Qed.

Lemma black_scholes_put_np K T r S kv v :
  black_scholes_put (np S) (py K) (py T) (py r) (Num kv (Fin v))
  = Ok (put_cell K T r S v).
Proof. rewrite black_scholes_put_eq. reflexivity. Qed.

Lemma call_prices_eq K T r spots vols :
  call_prices K T r spots vols
  = Ok (map (fun v => map (fun S => call_cell K T r S v) spots) vols).
Proof.
  unfold call_prices. apply mapM_Ok. intros v _.
  apply mapM_Ok. intros S _. apply black_scholes_call_np.
Qed.

Lemma put_prices_eq K T r spots vols :
  put_prices K T r spots vols
  = Ok (map (fun v => map (fun S => put_cell K T r S v) spots) vols).
Proof.
  unfold put_prices. apply mapM_Ok. intros v _.
  apply mapM_Ok. intros S _. apply black_scholes_put_np.
Qed.



Lemma cell_map2 {A B C : Type} (f : A -> B -> C) (rows : list A)
      (cols : list B) i j a b :
  nth_error rows i = Some a -> nth_error cols j = Some b ->
  cell (map (fun x => map (fun y => f x y) cols) rows) i j = Some (f a b).
Proof.
  intros Hi Hj. unfold cell.
  rewrite (map_nth_error _ _ _ Hi). apply (map_nth_error _ _ _ Hj).
Qed.


(** ** More on the axes *)

Lemma linspace_nth a b i :
  (i < 10)%nat ->
  nth_error (linspace a b 10) i = Some (INR i * ((b - a) / 9) + a).
Proof.
  intro Hi. rewrite linspace_10.
  rewrite (map_nth_error _ i (seq 0 10) (d := i)); [reflexivity|].
  rewrite nth_error_nth' with (d := 0%nat) by (rewrite length_seq; lia).
  rewrite seq_nth by lia. reflexivity.
Qed.

Lemma linspace_In a b x :
  In x (linspace a b 10) <->
  exists i, (i < 10)%nat /\ x = INR i * ((b - a) / 9) + a.
Proof.
  rewrite linspace_10, in_map_iff. split.
  - intros [i [<- Hi]]. exists i. apply in_seq in Hi. split; [lia|reflexivity].
  - intros [i [Hi ->]]. exists i. split; [reflexivity|apply in_seq; lia].
Qed.

Lemma linspace_bounds a b x :
  a <= b -> In x (linspace a b 10) -> a <= x <= b.
Proof.
  intros Hab Hx. apply linspace_In in Hx. destruct Hx as [i [Hi ->]].
  assert (0 <= INR i <= 9).
  { split; [apply pos_INR|].
    replace 9 with (INR 9) by (simpl; lra). apply le_INR. lia. }
  split; nra.
Qed.



Lemma volatilities_bounds a b sigma x :
  a <= b -> In x (volatilities a b sigma) ->
  Rmin a sigma <= x <= Rmax b sigma.
Proof.
  intros Hab Hx. apply volatilities_In in Hx.
  pose proof (Rmin_l a sigma). pose proof (Rmin_r a sigma).
  pose proof (Rmax_l b sigma). pose proof (Rmax_r b sigma).
  destruct Hx as [Hx| ->]; [|lra].
  apply (linspace_bounds a b x Hab) in Hx. lra.
Qed.

(** ** The traces against the volatility and the flattened grids *)

Lemma raises_zero_division_py S K :
  raises_zero_division (py S) (py K) = true <-> K = 0.
Proof.
  unfold raises_zero_division, py; simpl.
  destruct (Rsign K) eqn:E; split; intro H; try discriminate; try reflexivity.
  - subst. rewrite Rsign_zero in E. discriminate.
  - now apply Rsign_Zero_iff.
  - subst. rewrite Rsign_zero in E. discriminate.
Qed.

Lemma black_scholes_call_py S K T r kv v :
  K <> 0 ->
  black_scholes_call (py S) (py K) (py T) (py r) (Num kv (Fin v))
  = Ok (call_cell K T r S v).
Proof.
  intro HK. rewrite black_scholes_call_eq.
  destruct (raises_zero_division (py S) (py K)) eqn:E; [|reflexivity].
  apply raises_zero_division_py in E. contradiction.
Qed.

Lemma black_scholes_put_py S K T r kv v :
  K <> 0 ->
  black_scholes_put (py S) (py K) (py T) (py r) (Num kv (Fin v))
  = Ok (put_cell K T r S v).
Proof.
  intro HK. rewrite black_scholes_put_eq.
  destruct (raises_zero_division (py S) (py K)) eqn:E; [|reflexivity].
  apply raises_zero_division_py in E. contradiction.
Qed.

Lemma line_volatility_call_eq S K T r vols :
  K <> 0 ->
  line_volatility_call S K T r vols
  = Ok (map (fun v => call_cell K T r S v) vols).
Proof.
  intro HK. unfold line_volatility_call. apply mapM_Ok. intros v _.
  apply black_scholes_call_py. assumption.
Qed.

Lemma line_volatility_put_eq S K T r vols :
  K <> 0 ->
  line_volatility_put S K T r vols
  = Ok (map (fun v => put_cell K T r S v) vols).
Proof.
  intro HK. unfold line_volatility_put. apply mapM_Ok. intros v _.
  apply black_scholes_put_py. assumption.
Qed.

Lemma concat_uniform {A : Type} (w : nat) (grid : list (list A)) :
  Forall (fun row => length row = w) grid ->
  length (concat grid) = (length grid * w)%nat
  /\ forall i j, (j < w)%nat ->
       nth_error (concat grid) (i * w + j) = cell grid i j.
Proof.
  induction 1 as [|row grid Hrow Hgrid [IHl IHn]].
  - split; [reflexivity|]. intros i j _. unfold cell. simpl.
    destruct (i * w + j)%nat; destruct i; reflexivity.
  - split.
    + simpl. rewrite length_app, IHl, Hrow. reflexivity.
    + intros i j Hj. simpl concat. destruct i as [|i].
      * simpl. rewrite nth_error_app1 by lia. reflexivity.
      * rewrite nth_error_app2 by (rewrite Hrow; simpl; lia).
        rewrite Hrow.
        replace (Datatypes.S i * w + j - w)%nat with (i * w + j)%nat
          by (simpl; lia).
        rewrite IHn by assumption. reflexivity.
Qed.

Lemma strict_sorted_head l m :
  StronglySorted Rlt l -> In m l -> (forall x, In x l -> m <= x) ->
  nth_error l 0 = Some m.
Proof.
  intros Hs Hm Hmin. destruct l as [|a l]; [destruct Hm|].
  simpl. f_equal.
  inversion Hs as [|? ? _ Ha]; subst. rewrite Forall_forall in Ha.
  destruct Hm as [E|Hin]; [assumption|].
  specialize (Ha m Hin). specialize (Hmin a (or_introl eq_refl)). lra.
Qed.

Lemma strict_sorted_last l M d :
  StronglySorted Rlt l -> In M l -> (forall x, In x l -> x <= M) ->
  last l d = M.
Proof.
  induction 1 as [|a l Hl IH Ha]; intros HM Hmax; [destruct HM|].
  rewrite Forall_forall in Ha.
  destruct l as [|b l].
  - simpl. destruct HM as [E|[]]. assumption.
  - change (last (a :: b :: l) d) with (last (b :: l) d).
    apply IH.
    + destruct HM as [E|Hin]; [|assumption].
      subst. specialize (Ha b (or_introl eq_refl)).
      specialize (Hmax b (or_intror (or_introl eq_refl))). lra.
    + intros x Hx. apply Hmax. now right.
Qed.

(** * Facts about the program in binary64 *)

Module Binary64Facts.

Import Binary64.

Local Open Scope float_scope.

(** ** The data of a float *)

Lemma SFcompare_refl_finite s m e :
  SFcompare (S754_finite s m e) (S754_finite s m e) = Some Eq.
Proof.
  simpl. rewrite Z.compare_refl, Pos.compare_cont_refl.
  destruct s; reflexivity.
Qed.

Lemma is_nan_spec x : is_nan x = true <-> Prim2SF x = S754_nan.
Proof.
  unfold is_nan. rewrite FloatAxioms.eqb_spec. unfold SFeqb.
  destruct (Prim2SF x) as [s|s| |s m e].
  - simpl. split; discriminate.
  - destruct s; simpl; split; discriminate.
  - simpl. split; reflexivity.
  - rewrite SFcompare_refl_finite. split; discriminate.
Qed.

Lemma is_zero_spec x :
  PrimFloat.is_zero x = true <-> exists s, Prim2SF x = S754_zero s.
Proof.
  unfold PrimFloat.is_zero. rewrite FloatAxioms.eqb_spec. unfold SFeqb.
  change (Prim2SF zero) with (S754_zero false).
  destruct (Prim2SF x) as [s|s| |s m e]; simpl.
  - split; [eauto|reflexivity].
  - destruct s; (split; [discriminate|intros [s' H]; discriminate]).
  - split; [discriminate|intros [s' H]; discriminate].
  - destruct s; (split; [discriminate|intros [s' H]; discriminate]).
Qed.

Lemma is_infinity_spec x :
  is_infinity x = true <-> exists s, Prim2SF x = S754_infinity s.
Proof.
  unfold is_infinity.
  rewrite FloatAxioms.eqb_spec, FloatAxioms.abs_spec. unfold SFeqb.
  change (Prim2SF infinity) with (S754_infinity false).
  destruct (Prim2SF x) as [s|s| |s m e]; simpl.
  - split; [discriminate|intros [s' H]; discriminate].
  - split; [eauto|reflexivity].
  - split; [discriminate|intros [s' H]; discriminate].
  - split; [discriminate|intros [s' H]; discriminate].
Qed.

Lemma is_finite_spec x :
  is_finite x = true
  <-> (exists s, Prim2SF x = S754_zero s)
      \/ (exists s m e, Prim2SF x = S754_finite s m e).
Proof.
  unfold is_finite.
  destruct (is_nan x) eqn:En.
  { apply is_nan_spec in En. rewrite En. simpl.
    split; [discriminate|]. intros [[s H]|[s [m [e H]]]]; discriminate. }
  destruct (is_infinity x) eqn:Ei.
  { apply is_infinity_spec in Ei. destruct Ei as [s' Ei]. rewrite Ei. simpl.
    split; [discriminate|]. intros [[s H]|[s [m [e H]]]]; discriminate. }
  simpl. split; [intros _|reflexivity].
  destruct (Prim2SF x) as [s|s| |s m e] eqn:E; eauto.
  - assert (is_infinity x = true) by (apply is_infinity_spec; eauto).
    congruence.
  - assert (is_nan x = true) by (apply is_nan_spec; assumption).
    congruence.
Qed.

Lemma SF_nan x : Prim2SF x = S754_nan -> x = nan.
Proof. intro H. apply Prim2SF_inj. rewrite H. reflexivity. Qed.

Lemma SF_infinity x s :
  Prim2SF x = S754_infinity s -> x = if s then neg_infinity else infinity.
Proof. intro H. apply Prim2SF_inj. rewrite H. destruct s; reflexivity. Qed.

(** ** The value of a float *)

Lemma F2R_pos_finite x :
  (0 < F2R x)%R -> exists m e, Prim2SF x = S754_finite false m e.
Proof.
  unfold F2R. destruct (Prim2SF x) as [s|s| |s m e]; simpl; try lra.
  destruct s; [|eauto]. simpl. intro H. exfalso.
  assert (0 < powerRZ 2 e)%R by (apply powerRZ_lt; lra).
  assert (IZR (Z.neg m) < 0)%R by (apply IZR_lt; lia).
  nra.
Qed.

Lemma F2R_pos_nonzero x : (0 < F2R x)%R -> PrimFloat.is_zero x = false.
Proof.
  intro H. apply F2R_pos_finite in H. destruct H as [m [e H]].
  apply not_true_is_false. intro Hz. apply is_zero_spec in Hz.
  destruct Hz as [s Hz]. congruence.
Qed.

(** A float that compares above zero and is finite has a positive
    value. *)
Lemma F2R_positive x :
  (0 <? x) = true -> is_finite x = true -> (0 < F2R x)%R.
Proof.
  rewrite FloatAxioms.ltb_spec. change (Prim2SF 0) with (S754_zero false).
  intros Hlt Hf. apply is_finite_spec in Hf. unfold F2R.
  destruct Hf as [[s H]|[s [m [e H]]]]; rewrite H in *.
  - discriminate.
  - destruct s; [discriminate|]. simpl.
    apply Rmult_lt_0_compat; [apply IZR_lt; lia|apply powerRZ_lt; lra].
Qed.


(** ** When the pricing functions raise *)

Lemma fpow2_infinite L x :
  is_finite x = true -> is_infinity (fpow2 L x) = is_infinity (x * x).
Proof.
  intro H. apply is_finite_spec in H. unfold fpow2.
  destruct H as [[s H]|[s [m [e H]]]]; rewrite H.
  - symmetry. apply not_true_is_false. intro Hi.
    apply is_infinity_spec in Hi. destruct Hi as [s' Hi].
    rewrite FloatAxioms.mul_spec, H in Hi. destruct s; discriminate.
  - destruct (is_infinity (x * x)) eqn:E; [reflexivity|].
    apply approx_pow2_finite. assumption.
Qed.

Lemma pow2_cases L sigma :
  pow2 L sigma
  = if raises_overflow sigma then Raise OverflowError
    else Ok (Num (kind_of sigma) (fpow2 L (val sigma))).
Proof.
  destruct sigma as [[|] sg]; unfold pow2, raises_overflow; simpl;
    [|reflexivity].
  destruct (is_finite sg) eqn:E; simpl; [|reflexivity].
  rewrite fpow2_infinite by assumption. reflexivity.
Qed.

(** The two functions as a case distinction: the quotient raises first,
    then the power, and otherwise the value of the formula is returned as
    a numpy scalar. *)
Lemma black_scholes_call_cases L S K T r sigma :
  black_scholes_call L S K T r sigma
  = if raises_zero_division S K then Raise ZeroDivisionError
    else if raises_overflow sigma then Raise OverflowError
    else Ok (np (formula_call (float_arithmetic L)
                   (val S) (val K) (val T) (val r) (val sigma))).
Proof.
  unfold black_scholes_call. rewrite !pow2_cases.
  destruct S as [kS s], K as [kK k], T as [kT t], r as [kr r],
    sigma as [ks sg].
  unfold raises_zero_division, truediv; simpl.
  destruct kS, kK; simpl; try destruct (PrimFloat.is_zero k); simpl;
    try reflexivity;
    destruct (raises_overflow {| kind_of := ks; val := sg |}); simpl;
    try reflexivity; destruct ks, kr, kT; reflexivity.
Qed.

Lemma black_scholes_put_cases L S K T r sigma :
  black_scholes_put L S K T r sigma
  = if raises_zero_division S K then Raise ZeroDivisionError
    else if raises_overflow sigma then Raise OverflowError
    else Ok (np (formula_put (float_arithmetic L)
                   (val S) (val K) (val T) (val r) (val sigma))).
Proof.
  unfold black_scholes_put. rewrite !pow2_cases.
  destruct S as [kS s], K as [kK k], T as [kT t], r as [kr r],
    sigma as [ks sg].
  unfold raises_zero_division, truediv; simpl.
  destruct kS, kK; simpl; try destruct (PrimFloat.is_zero k); simpl;
    try reflexivity;
    destruct (raises_overflow {| kind_of := ks; val := sg |}); simpl;
    try reflexivity; destruct ks, kr, kT; reflexivity.
Qed.

Lemma raises_zero_division_pos kS kK S K :
  (0 < F2R K)%R -> raises_zero_division (Num kS S) (Num kK K) = false.
Proof.
  intro H. unfold raises_zero_division; simpl.
  rewrite (F2R_pos_nonzero _ H). destruct kS, kK; reflexivity.
Qed.



(** ** NaN *)

Lemma mul_nan_r x : x * nan = nan.
Proof.
  apply Prim2SF_inj. rewrite FloatAxioms.mul_spec.
  change (Prim2SF nan) with S754_nan. destruct (Prim2SF x); reflexivity.
Qed.

Lemma add_nan_l x : nan + x = nan.
Proof.
  apply Prim2SF_inj. rewrite FloatAxioms.add_spec.
  change (Prim2SF nan) with S754_nan. reflexivity.
Qed.

Lemma sub_nan_l x : nan - x = nan.
Proof.
  apply Prim2SF_inj. rewrite FloatAxioms.sub_spec.
  change (Prim2SF nan) with S754_nan. reflexivity.
Qed.

Lemma sub_nan_r x : x - nan = nan.
Proof.
  apply Prim2SF_inj. rewrite FloatAxioms.sub_spec.
  change (Prim2SF nan) with S754_nan. destruct (Prim2SF x); reflexivity.
Qed.

Lemma div_nan_l x : nan / x = nan.
Proof.
  apply Prim2SF_inj. rewrite FloatAxioms.div_spec.
  change (Prim2SF nan) with S754_nan. reflexivity.
Qed.

Lemma div_nan_r x : x / nan = nan.
Proof.
  apply Prim2SF_inj. rewrite FloatAxioms.div_spec.
  change (Prim2SF nan) with S754_nan. destruct (Prim2SF x); reflexivity.
Qed.

Lemma fcdf_nan L : fcdf L nan = nan.
Proof. reflexivity. Qed.

(** A NaN in [d1] or in [d2] makes both prices NaN. *)

Lemma formula_call_d1_nan L S K T r sigma :
  formula_d1 (float_arithmetic L) S K T r sigma = nan ->
  formula_call (float_arithmetic L) S K T r sigma = nan.
Proof.
  intro H. unfold formula_call. rewrite H. simpl.
  rewrite fcdf_nan, mul_nan_r, sub_nan_l. reflexivity.
Qed.

Lemma formula_call_d2_nan L S K T r sigma :
  formula_d2 (float_arithmetic L) S K T r sigma = nan ->
  formula_call (float_arithmetic L) S K T r sigma = nan.
Proof.
  intro H. unfold formula_call. rewrite H. simpl.
  rewrite fcdf_nan, mul_nan_r, sub_nan_r. reflexivity.
Qed.

Lemma formula_put_d1_nan L S K T r sigma :
  formula_d1 (float_arithmetic L) S K T r sigma = nan ->
  formula_put (float_arithmetic L) S K T r sigma = nan.
Proof.
  intro H. unfold formula_put. rewrite H. simpl.
  rewrite fcdf_nan, mul_nan_r, sub_nan_r. reflexivity.
Qed.

Lemma formula_put_d2_nan L S K T r sigma :
  formula_d2 (float_arithmetic L) S K T r sigma = nan ->
  formula_put (float_arithmetic L) S K T r sigma = nan.
Proof.
  intro H. unfold formula_put. rewrite H. simpl.
  rewrite fcdf_nan, mul_nan_r, sub_nan_l. reflexivity.
Qed.

(** ** Arguments below zero *)

Lemma ltb_zero_spec x :
  (x <? 0) = true
  -> Prim2SF x = S754_infinity true
     \/ exists m e, Prim2SF x = S754_finite true m e.
Proof.
  rewrite FloatAxioms.ltb_spec. change (Prim2SF 0) with (S754_zero false).
  destruct (Prim2SF x) as [s|s| |s m e]; simpl; try discriminate.
  - destruct s; [auto|discriminate].
  - destruct s; [eauto|discriminate].
Qed.

Lemma sqrt_negative x : (x <? 0) = true -> PrimFloat.sqrt x = nan.
Proof.
  intro H. apply ltb_zero_spec in H. apply Prim2SF_inj.
  rewrite FloatAxioms.sqrt_spec.
  destruct H as [H|[m [e H]]]; rewrite H; reflexivity.
Qed.

Lemma flog_negative L x : (x <? 0) = true -> flog L x = nan.
Proof.
  intro H. apply ltb_zero_spec in H. unfold flog.
  destruct H as [H|[m [e H]]]; rewrite H; reflexivity.
Qed.

Lemma negative_maturity_d1 L S K T r sigma :
  (T <? 0) = true -> formula_d1 (float_arithmetic L) S K T r sigma = nan.
Proof.
  intro H. unfold formula_d1; simpl.
  rewrite (sqrt_negative _ H), mul_nan_r, div_nan_r. reflexivity.
Qed.

Lemma negative_quotient_d1 L S K T r sigma :
  (S / K <? 0) = true -> formula_d1 (float_arithmetic L) S K T r sigma = nan.
Proof.
  intro H. unfold formula_d1; simpl.
  rewrite (flog_negative _ _ H), add_nan_l, div_nan_l. reflexivity.
Qed.

(** ** A zero divisor *)

Lemma zero_zero_or_nan x : PrimFloat.is_zero x = true -> zero_or_nan x.
Proof. intro H. right. apply is_zero_spec. assumption. Qed.

Lemma sqrt_zero x : PrimFloat.is_zero x = true -> PrimFloat.sqrt x = x.
Proof.
  intro H. apply is_zero_spec in H. destruct H as [s H].
  apply Prim2SF_inj. rewrite FloatAxioms.sqrt_spec, H. reflexivity.
Qed.

Lemma mul_zero_l x y : PrimFloat.is_zero x = true -> zero_or_nan (x * y).
Proof.
  intro H. apply is_zero_spec in H. destruct H as [s H].
  unfold zero_or_nan. rewrite FloatAxioms.mul_spec, H.
  destruct (Prim2SF y); simpl; eauto.
Qed.

Lemma mul_zero_r x y : PrimFloat.is_zero y = true -> zero_or_nan (x * y).
Proof.
  intro H. apply is_zero_spec in H. destruct H as [s H].
  unfold zero_or_nan. rewrite FloatAxioms.mul_spec, H.
  destruct (Prim2SF x); simpl; eauto.
Qed.

Lemma add_zero_or_nan x y :
  zero_or_nan x -> zero_or_nan y -> zero_or_nan (x + y).
Proof.
  unfold zero_or_nan. rewrite FloatAxioms.add_spec.
  intros [Hx|[sx Hx]] [Hy|[sy Hy]]; rewrite Hx, Hy; simpl; auto.
  destruct sx, sy; simpl; eauto.
Qed.

Lemma div_zero_or_nan x y :
  zero_or_nan x -> zero_or_nan y -> x / y = nan.
Proof.
  unfold zero_or_nan. intros Hx Hy. apply Prim2SF_inj.
  rewrite FloatAxioms.div_spec.
  destruct Hx as [Hx|[sx Hx]], Hy as [Hy|[sy Hy]]; rewrite Hx, Hy;
    reflexivity.
Qed.

(** Whatever is divided by a zero or by NaN, the quotient is NaN or an
    infinity. *)
Lemma div_degenerate x y :
  zero_or_nan y -> x / y = nan \/ x / y = infinity \/ x / y = neg_infinity.
Proof.
  intros [Hy|[sy Hy]].
  - left. apply SF_nan in Hy. rewrite Hy. apply div_nan_r.
  - assert (E : Prim2SF (x / y) = SF64div (Prim2SF x) (S754_zero sy))
      by (rewrite FloatAxioms.div_spec, Hy; reflexivity).
    destruct (Prim2SF x) as [s|s| |s m e]; simpl in E.
    + left. apply SF_nan. assumption.
    + apply SF_infinity in E. rewrite E. destruct (xorb s sy); auto.
    + left. apply SF_nan. assumption.
    + apply SF_infinity in E. rewrite E. destruct (xorb s sy); auto.
Qed.

(** With a zero volatility or a zero maturity the divisor
    [sigma * np.sqrt(T)] is a zero, or NaN. *)
Lemma denominator_degenerate sigma T :
  PrimFloat.is_zero sigma = true \/ PrimFloat.is_zero T = true ->
  zero_or_nan (sigma * PrimFloat.sqrt T).
Proof.
  intros [H|H].
  - apply mul_zero_l. assumption.
  - apply mul_zero_r. rewrite sqrt_zero; assumption.
Qed.

Lemma flog_one L x : (x =? 1) = true -> flog L x = 0.
Proof.
  intro H. pose proof H as H'. unfold flog.
  rewrite FloatAxioms.eqb_spec in H.
  change (Prim2SF 1) with (S754_finite false 4503599627370496 (-52)) in H.
  destruct (Prim2SF x) as [s|s| |s m e]; simpl in H; try discriminate.
  - destruct s; discriminate.
  - destruct s; [discriminate|]. rewrite H'. reflexivity.
Qed.

(** At maturity zero with a quotient [S / K] of 1, the numerators are a
    zero or NaN, and so [d1] and [d2] are NaN. *)
Lemma at_the_money_zero_maturity_d1 L S K T r sigma :
  PrimFloat.is_zero T = true -> (S / K =? 1) = true ->
  formula_d1 (float_arithmetic L) S K T r sigma = nan.
Proof.
  intros HT HQ. unfold formula_d1; simpl.
  apply div_zero_or_nan.
  - apply add_zero_or_nan.
    + rewrite (flog_one _ _ HQ). apply zero_zero_or_nan. reflexivity.
    + apply mul_zero_r. assumption.
  - apply denominator_degenerate. auto.
Qed.

Lemma at_the_money_zero_maturity_d2 L S K T r sigma :
  PrimFloat.is_zero T = true -> (S / K =? 1) = true ->
  formula_d2 (float_arithmetic L) S K T r sigma = nan.
Proof.
  intros HT HQ. unfold formula_d2; simpl.
  apply div_zero_or_nan.
  - apply add_zero_or_nan.
    + rewrite (flog_one _ _ HQ). apply zero_zero_or_nan. reflexivity.
    + apply mul_zero_r. assumption.
  - apply denominator_degenerate. auto.
Qed.

(** ** The order of the floats that are numbers *)

Lemma digits2_pos_bound m : (Z.pos m < 2 ^ Z.pos (digits2_pos m))%Z.
Proof.
  induction m as [m IH|m IH|]; simpl digits2_pos;
    rewrite ?Pos2Z.inj_succ, ?Z.pow_succ_r by lia; lia.
Qed.

Lemma valid_finite_bounds s m e :
  valid_binary (S754_finite s m e) = true ->
  (-1074 <= e <= 971 /\ Z.pos m < 9007199254740992)%Z.
Proof.
  unfold SpecFloat.valid_binary, SpecFloat.bounded,
    SpecFloat.canonical_mantissa, SpecFloat.fexp, SpecFloat.emin,
    prec, emax.
  intro H. apply andb_prop in H. destruct H as [H1 H2].
  apply Z.eqb_eq in H1. apply Z.leb_le in H2.
  pose proof (digits2_pos_bound m) as Hd.
  assert (Hle : (Z.pos (digits2_pos m) <= 53)%Z) by lia.
  assert (Hp : (2 ^ Z.pos (digits2_pos m) <= 2 ^ 53)%Z)
    by (apply Z.pow_le_mono_r; lia).
  change (2 ^ 53)%Z with 9007199254740992%Z in Hp. lia.
Qed.

(** The comparison of two data that are not NaN is the comparison of
    their keys. *)
Lemma SFcompare_key a b :
  valid_binary a = true -> valid_binary b = true ->
  a <> S754_nan -> b <> S754_nan ->
  SFcompare a b = Some (SFkey a ?= SFkey b)%Z.
Proof.
  intros Va Vb Na Nb.
  destruct a as [sa|sa| |sa ma ea], b as [sb|sb| |sb mb eb];
    try congruence;
    try (apply valid_finite_bounds in Va);
    try (apply valid_finite_bounds in Vb);
    unfold SFcompare, SFkey, cond_Zopp.
  - reflexivity.
  - destruct sb; reflexivity.
  - f_equal. symmetry. destruct sb.
    + apply Z.compare_gt_iff. lia.
    + apply Z.compare_lt_iff. lia.
  - destruct sa; reflexivity.
  - destruct sa, sb; reflexivity.
  - f_equal. symmetry. destruct sa.
    + apply Z.compare_lt_iff. destruct sb; lia.
    + apply Z.compare_gt_iff. destruct sb; lia.
  - f_equal. symmetry. destruct sa.
    + apply Z.compare_lt_iff. lia.
    + apply Z.compare_gt_iff. lia.
  - f_equal. symmetry. destruct sb.
    + apply Z.compare_gt_iff. destruct sa; lia.
    + apply Z.compare_lt_iff. destruct sa; lia.
  - f_equal. rewrite Pos.compare_cont_spec.
    destruct sa, sb; destruct (Z.compare_spec ea eb) as [E|E|E];
      destruct (Pos.compare_spec ma mb) as [F|F|F]; simpl; symmetry;
      first [ apply Z.compare_eq_iff; lia
            | apply Z.compare_lt_iff; lia
            | apply Z.compare_gt_iff; lia ].
Qed.

Lemma not_nan_SF x : is_nan x = false -> Prim2SF x <> S754_nan.
Proof. intros H E. apply is_nan_spec in E. congruence. Qed.

Lemma compare_key x y :
  is_nan x = false -> is_nan y = false ->
  SFcompare (Prim2SF x) (Prim2SF y) = Some (key x ?= key y)%Z.
Proof.
  intros Hx Hy. apply SFcompare_key; auto using Prim2SF_valid, not_nan_SF.
Qed.

Lemma leb_key x y :
  is_nan x = false -> is_nan y = false ->
  (x <=? y) = (key x <=? key y)%Z.
Proof.
  intros Hx Hy. rewrite FloatAxioms.leb_spec. unfold SFleb.
  rewrite compare_key by assumption. unfold Z.leb.
  destruct (key x ?= key y)%Z; reflexivity.
Qed.

Lemma ltb_key x y :
  is_nan x = false -> is_nan y = false ->
  (x <? y) = (key x <? key y)%Z.
Proof.
  intros Hx Hy. rewrite FloatAxioms.ltb_spec. unfold SFltb.
  rewrite compare_key by assumption. unfold Z.ltb.
  destruct (key x ?= key y)%Z; reflexivity.
Qed.

Lemma eqb_key x y :
  is_nan x = false -> is_nan y = false ->
  (x =? y) = (key x =? key y)%Z.
Proof.
  intros Hx Hy. rewrite FloatAxioms.eqb_spec. unfold SFeqb.
  rewrite compare_key by assumption. rewrite Z.eqb_compare.
  destruct (key x ?= key y)%Z; reflexivity.
Qed.

(** ** Sorting an array of numbers *)

Lemma numbers_forallb l :
  forallb (fun x => negb (is_nan x)) l = true -> numbers l.
Proof.
  intro H. apply Forall_forall. intros x Hx.
  rewrite forallb_forall in H. apply H in Hx.
  destruct (is_nan x); [discriminate|reflexivity].
Qed.

Lemma numbers_app l x :
  numbers (l ++ [x]) -> numbers l /\ is_nan x = false.
Proof.
  unfold numbers. intro H. apply Forall_app in H. destruct H as [H1 H2].
  split; [assumption|]. inversion H2; assumption.
Qed.

Lemma insert_elements x l y : In y (insert x l) <-> y = x \/ In y l.
Proof.
  induction l as [|a l IH]; simpl.
  - intuition.
  - destruct (x <=? a); simpl; rewrite ?IH; intuition.
Qed.

Lemma sort_elements l y : In y (sort l) <-> In y l.
Proof.
  induction l as [|a l IH]; simpl; [tauto|].
  rewrite insert_elements, IH. intuition.
Qed.

Lemma sort_numbers l : numbers l -> numbers (sort l).
Proof.
  unfold numbers. rewrite !Forall_forall. intros H x Hx.
  apply H, sort_elements, Hx.
Qed.

Lemma insert_key_sorted x l :
  is_nan x = false -> numbers l ->
  StronglySorted key_le l -> StronglySorted key_le (insert x l).
Proof.
  intros Hx Hl Hs. induction Hs as [|a l Hs IH Ha]; simpl.
  - constructor; constructor.
  - inversion Hl as [|? ? Hna Hl']; subst.
    rewrite leb_key by assumption.
    destruct (Z.leb_spec (key x) (key a)) as [H|H].
    + constructor; [constructor; assumption|].
      constructor; [assumption|].
      apply Forall_impl with (2 := Ha). unfold key_le. intros; lia.
    + constructor; [apply IH; assumption|].
      apply Forall_forall. intros y Hy. apply insert_elements in Hy.
      destruct Hy as [ -> |Hy].
      * unfold key_le. lia.
      * rewrite Forall_forall in Ha. apply Ha, Hy.
Qed.

Lemma sort_key_sorted l : numbers l -> StronglySorted key_le (sort l).
Proof.
  intro Hl. induction Hl as [|a l Ha Hl IH]; simpl.
  - constructor.
  - apply insert_key_sorted;
      [assumption|apply sort_numbers; assumption|assumption].
Qed.

(** ** Removing the repeated values *)

Lemma unique_after_elements p l x : In x (unique_after p l) -> In x l.
Proof.
  revert p. induction l as [|y l IH]; intros p; simpl; [tauto|].
  destruct (p =? y); simpl; intros H.
  - right. apply (IH y), H.
  - destruct H as [H|H]; [auto|right; apply (IH y), H].
Qed.

Lemma unique_after_sorted p l :
  numbers (p :: l) -> StronglySorted key_le (p :: l) ->
  StronglySorted key_lt (p :: unique_after p l).
Proof.
  revert p. induction l as [|y l IH]; intros p Hn Hs; simpl.
  - constructor; constructor.
  - inversion Hn as [|? ? Hp Hn']; subst.
    inversion Hn' as [|? ? Hy Hn'']; subst.
    inversion Hs as [|? ? Hs' Hall]; subst.
    inversion Hall as [|? ? Hpy Hall']; subst.
    specialize (IH y Hn' Hs').
    inversion IH as [|? ? IHs IHall]; subst.
    rewrite eqb_key by assumption.
    destruct (Z.eqb_spec (key p) (key y)) as [E|E].
    + constructor; [assumption|].
      apply Forall_impl with (2 := IHall). unfold key_lt. intros; lia.
    + constructor; [assumption|].
      constructor; [unfold key_le in Hpy; unfold key_lt; lia|].
      apply Forall_impl with (2 := IHall).
      unfold key_lt, key_le in *. intros; lia.
Qed.

Lemma unique_after_keys p l z :
  numbers (p :: l) ->
  In z (map key (p :: unique_after p l)) <-> In z (map key (p :: l)).
Proof.
  revert p. induction l as [|y l IH]; intros p Hn; simpl; [tauto|].
  inversion Hn as [|? ? Hp Hn']; subst.
  inversion Hn' as [|? ? Hy Hn'']; subst.
  specialize (IH y Hn'). simpl in IH.
  rewrite eqb_key by assumption.
  destruct (Z.eqb_spec (key p) (key y)) as [E|E]; simpl.
  - rewrite <- IH, E. tauto.
  - rewrite <- IH. tauto.
Qed.

Lemma np_unique_elements l x : In x (np_unique l) -> In x l.
Proof.
  unfold np_unique. intro H. apply sort_elements.
  destruct (sort l) as [|p u]; [assumption|].
  destruct H as [H|H]; [left; assumption|right].
  apply unique_after_elements in H. assumption.
Qed.

Lemma np_unique_numbers l : numbers l -> numbers (np_unique l).
Proof.
  unfold numbers. rewrite !Forall_forall. intros H x Hx.
  apply H, np_unique_elements, Hx.
Qed.

Lemma np_unique_key_sorted l :
  numbers l -> StronglySorted key_lt (np_unique l).
Proof.
  intro Hl. unfold np_unique.
  pose proof (sort_key_sorted l Hl) as Hs.
  pose proof (sort_numbers l Hl) as Hn.
  destruct (sort l) as [|p u]; [constructor|].
  apply unique_after_sorted; assumption.
Qed.

(** [np.unique] keeps the values: the keys of the result are those of the
    array. *)
Lemma np_unique_keys l z :
  numbers l -> In z (map key (np_unique l)) <-> In z (map key l).
Proof.
  intro Hl. unfold np_unique.
  pose proof (sort_numbers l Hl) as Hn.
  assert (Hk : In z (map key (sort l)) <-> In z (map key l)).
  { rewrite !in_map_iff. split; intros [x [E Hx]]; exists x;
      (split; [assumption|]); apply sort_elements; assumption. }
  rewrite <- Hk.
  destruct (sort l) as [|p u]; [tauto|].
  apply unique_after_keys. assumption.
Qed.

Lemma key_sorted_NoDup l : StronglySorted key_lt l -> NoDup (map key l).
Proof.
  induction 1 as [|a l Hs IH Ha]; simpl; constructor; [|assumption].
  intro Hin. apply in_map_iff in Hin. destruct Hin as [x [E Hx]].
  rewrite Forall_forall in Ha. apply Ha in Hx. unfold key_lt in Hx. lia.
Qed.

(** The result of [np.unique] on numbers is strictly increasing for the
    comparison of floats. *)
Lemma np_unique_increasing l :
  numbers l -> StronglySorted (fun a b => (a <? b) = true) (np_unique l).
Proof.
  intro Hl.
  pose proof (np_unique_key_sorted l Hl) as Hs.
  pose proof (np_unique_numbers l Hl) as Hn.
  induction Hs as [|a u Hs IH Ha]; constructor.
  - apply IH. inversion Hn; assumption.
  - inversion Hn as [|? ? Hna Hnu]; subst.
    apply Forall_forall. intros x Hx.
    rewrite ltb_key.
    + rewrite Forall_forall in Ha. apply Z.ltb_lt, Ha, Hx.
    + assumption.
    + unfold numbers in Hnu. rewrite Forall_forall in Hnu. apply Hnu, Hx.
Qed.

(** ** Counting the values *)

Lemma same_elements_length (l1 l2 : list Z) :
  NoDup l1 -> NoDup l2 -> (forall z, In z l1 <-> In z l2) ->
  length l1 = length l2.
Proof.
  intros H1 H2 H. apply Nat.le_antisymm.
  - apply NoDup_incl_length; [assumption|]. intros z Hz. apply H, Hz.
  - apply NoDup_incl_length; [assumption|]. intros z Hz. apply H, Hz.
Qed.

Lemma existsb_key sigma l :
  is_nan sigma = false -> numbers l ->
  existsb (fun x => x =? sigma) l = true <-> In (key sigma) (map key l).
Proof.
  intros Hs Hl. rewrite existsb_exists, in_map_iff.
  unfold numbers in Hl. rewrite Forall_forall in Hl.
  split; intros [x [H1 H2]]; exists x.
  - rewrite eqb_key in H2 by auto. apply Z.eqb_eq in H2. auto.
  - split; [assumption|]. rewrite eqb_key by auto. apply Z.eqb_eq.
    assumption.
Qed.

(** Appending a value before [np.unique] adds one element when the value
    equals no element of the array, and none otherwise. *)
Lemma np_unique_append_length l sigma :
  numbers (np_append l sigma) ->
  length (np_unique (np_append l sigma))
  = (length (np_unique l)
     + if existsb (fun x => (x =? sigma)%float) l then 0 else 1)%nat.
Proof.
  intro Hn. pose proof Hn as Hn'. unfold np_append in Hn'.
  apply numbers_app in Hn'. destruct Hn' as [Hl Hs].
  rewrite <- (length_map key (np_unique (np_append l sigma))).
  rewrite <- (length_map key (np_unique l)).
  assert (N1 : NoDup (map key (np_unique (np_append l sigma))))
    by (apply key_sorted_NoDup, np_unique_key_sorted; assumption).
  assert (N2 : NoDup (map key (np_unique l)))
    by (apply key_sorted_NoDup, np_unique_key_sorted; assumption).
  assert (K1 : forall z, In z (map key (np_unique (np_append l sigma)))
                         <-> In z (map key l) \/ z = key sigma).
  { intro z. rewrite np_unique_keys by assumption. unfold np_append.
    rewrite map_app, in_app_iff. simpl. intuition. }
  destruct (existsb (fun x => x =? sigma) l) eqn:E.
  - apply existsb_key in E; [|assumption|assumption].
    rewrite Nat.add_0_r. apply same_elements_length; [assumption..|].
    intro z. rewrite K1, np_unique_keys by assumption.
    split; [intros [H| -> ]; assumption|auto].
  - assert (Hnot : ~ In (key sigma) (map key (np_unique l))).
    { rewrite np_unique_keys by assumption. intro H.
      apply existsb_key in H; [congruence|assumption|assumption]. }
    rewrite Nat.add_1_r.
    change (Datatypes.S (length (map key (np_unique l))))
      with (length (key sigma :: map key (np_unique l))).
    apply same_elements_length; [assumption|constructor; assumption|].
    intro z. rewrite K1. simpl. rewrite np_unique_keys by assumption.
    intuition.
Qed.

Lemma np_unique_length_bounds l :
  numbers l -> l <> [] ->
  (1 <= length (np_unique l) <= length l)%nat.
Proof.
  intros Hl Hne. split.
  - destruct l as [|x l']; [congruence|].
    assert (H : In (key x) (map key (np_unique (x :: l')))).
    { apply np_unique_keys; [assumption|]. simpl. auto. }
    destruct (np_unique (x :: l')); [contradiction|simpl; lia].
  - rewrite <- (length_map key (np_unique l)), <- (length_map key l).
    apply NoDup_incl_length.
    + apply key_sorted_NoDup, np_unique_key_sorted. assumption.
    + intros z Hz. apply (proj1 (np_unique_keys l z Hl)), Hz.
Qed.

(** An array of numbers that differ from one another loses no element
    to [np.unique]. *)
Lemma distinct_keys l :
  numbers l -> ForallOrdPairs (fun a b => (a =? b) = false) l ->
  NoDup (map key l).
Proof.
  intros Hn H. induction H as [|a l Ha Hp IH]; simpl; constructor.
  - intro Hin. apply in_map_iff in Hin. destruct Hin as [x [E Hx]].
    inversion Hn as [|? ? Hna Hnl]; subst.
    rewrite Forall_forall in Ha. specialize (Ha x Hx).
    unfold numbers in Hnl. rewrite Forall_forall in Hnl.
    rewrite eqb_key in Ha by auto.
    apply Z.eqb_neq in Ha. congruence.
  - apply IH. inversion Hn; assumption.
Qed.

Lemma np_unique_distinct_length l :
  numbers l -> ForallOrdPairs (fun a b => (a =? b) = false) l ->
  length (np_unique l) = length l.
Proof.
  intros Hn Hd.
  rewrite <- (length_map key (np_unique l)), <- (length_map key l).
  apply same_elements_length.
  - apply key_sorted_NoDup, np_unique_key_sorted; assumption.
  - apply distinct_keys; assumption.
  - intro z. apply np_unique_keys. assumption.
Qed.

Lemma linspace_ten a b : length (linspace a b 10) = 10%nat.
Proof. reflexivity. Qed.

(** ** The grids and the traces *)

(** The value of a cell. *)
Definition call_value (L : library) (K T r S v : float) : num :=
  np (formula_call (float_arithmetic L) S K T r v).

Definition put_value (L : library) (K T r S v : float) : num :=
  np (formula_put (float_arithmetic L) S K T r v).

(** With a numpy spot and a numpy volatility nothing raises. *)
Lemma black_scholes_call_grid L K T r S v :
  black_scholes_call L (np S) (py K) (py T) (py r) (np v)
  = Ok (call_value L K T r S v).
Proof. rewrite black_scholes_call_cases. reflexivity. Qed.

Lemma black_scholes_put_grid L K T r S v :
  black_scholes_put L (np S) (py K) (py T) (py r) (np v)
  = Ok (put_value L K T r S v).
Proof. rewrite black_scholes_put_cases. reflexivity. Qed.

Lemma call_prices_grid L K T r spots vols :
  call_prices L K T r spots vols
  = Ok (map (fun v => map (fun S => call_value L K T r S v) spots) vols).
Proof.
  unfold call_prices. apply mapM_Ok. intros v _.
  apply mapM_Ok. intros S _. apply black_scholes_call_grid.
Qed.

Lemma put_prices_grid L K T r spots vols :
  put_prices L K T r spots vols
  = Ok (map (fun v => map (fun S => put_value L K T r S v) spots) vols).
Proof.
  unfold put_prices. apply mapM_Ok. intros v _.
  apply mapM_Ok. intros S _. apply black_scholes_put_grid.
Qed.

(** With a numpy spot and the Python volatility only the power can
    raise. *)
Lemma line_spot_call_trace L K T r sigma spots :
  raises_overflow (py sigma) = false ->
  line_spot_call L K T r sigma spots
  = Ok (map (fun S => call_value L K T r S sigma) spots).
Proof.
  intro H. unfold line_spot_call. apply mapM_Ok. intros S _.
  rewrite black_scholes_call_cases, H. reflexivity.
Qed.

Lemma line_spot_put_trace L K T r sigma spots :
  raises_overflow (py sigma) = false ->
  line_spot_put L K T r sigma spots
  = Ok (map (fun S => put_value L K T r S sigma) spots).
Proof.
  intro H. unfold line_spot_put. apply mapM_Ok. intros S _.
  rewrite black_scholes_put_cases, H. reflexivity.
Qed.

(** With the Python spot and a numpy volatility only the quotient can
    raise. *)
Lemma line_volatility_call_trace L S K T r vols :
  PrimFloat.is_zero K = false ->
  line_volatility_call L S K T r vols
  = Ok (map (fun v => call_value L K T r S v) vols).
Proof.
  intro H. unfold line_volatility_call. apply mapM_Ok. intros v _.
  rewrite black_scholes_call_cases. unfold raises_zero_division. simpl.
  rewrite H. reflexivity.
Qed.

Lemma line_volatility_put_trace L S K T r vols :
  PrimFloat.is_zero K = false ->
  line_volatility_put L S K T r vols
  = Ok (map (fun v => put_value L K T r S v) vols).
Proof.
  intro H. unfold line_volatility_put. apply mapM_Ok. intros v _.
  rewrite black_scholes_put_cases. unfold raises_zero_division. simpl.
  rewrite H. reflexivity.
Qed.

Lemma call_price_cases L S K T r sigma :
  call_price L S K T r sigma
  = if PrimFloat.is_zero K then Raise ZeroDivisionError
    else if raises_overflow (py sigma) then Raise OverflowError
    else Ok (call_value L K T r S sigma).
Proof. unfold call_price. rewrite black_scholes_call_cases. reflexivity. Qed.

Lemma put_price_cases L S K T r sigma :
  put_price L S K T r sigma
  = if PrimFloat.is_zero K then Raise ZeroDivisionError
    else if raises_overflow (py sigma) then Raise OverflowError
    else Ok (put_value L K T r S sigma).
Proof. unfold put_price. rewrite black_scholes_put_cases. reflexivity. Qed.

(** The run of the script: it stops at the first headline price when the
    strike is a zero or the power overflows, and otherwise reaches its
    end. *)
Lemma script_cases L S K T r sigma min_S max_S min_sigma max_sigma :
  script L S K T r sigma min_S max_S min_sigma max_sigma
  = if PrimFloat.is_zero K then Raise ZeroDivisionError
    else if raises_overflow (py sigma) then Raise OverflowError
    else
      Ok (Charts
            (call_value L K T r S sigma) (put_value L K T r S sigma)
            (spot_prices min_S max_S)
            (volatilities min_sigma max_sigma sigma)
            (map (fun v => map (fun s => call_value L K T r s v)
                               (spot_prices min_S max_S))
                 (volatilities min_sigma max_sigma sigma))
            (map (fun v => map (fun s => put_value L K T r s v)
                               (spot_prices min_S max_S))
                 (volatilities min_sigma max_sigma sigma))
            (map (fun s => call_value L K T r s sigma)
                 (spot_prices min_S max_S))
            (map (fun s => put_value L K T r s sigma)
                 (spot_prices min_S max_S))
            (map (fun v => call_value L K T r S v)
                 (volatilities min_sigma max_sigma sigma))
            (map (fun v => put_value L K T r S v)
                 (volatilities min_sigma max_sigma sigma))).
Proof.
  unfold script. rewrite call_price_cases, put_price_cases.
  destruct (PrimFloat.is_zero K) eqn:EK; [reflexivity|].
  destruct (raises_overflow (py sigma)) eqn:Eo; [reflexivity|].
  simpl bind.
  rewrite call_prices_grid, put_prices_grid. simpl bind.
  rewrite line_spot_call_trace, line_spot_put_trace by assumption.
  simpl bind.
  rewrite line_volatility_call_trace, line_volatility_put_trace
    by assumption.
  reflexivity.
Qed.

End Binary64Facts.

(** * Properties stated by the specification *)

(** ** Pricing on valid inputs *)

(** C1, as stated, fails: with the volatility 1e200 entered as a Python
    float, and the other inputs at their defaults, [sigma ** 2] overflows
    and both functions raise [OverflowError]; nothing is returned. *)
Lemma overflowing_volatility_raises :
  (forall L,
     Binary64.black_scholes_call L (Binary64.py 100) (Binary64.py 100)
       (Binary64.py 1) (Binary64.py 0.05) (Binary64.py 1e200)
     = Raise OverflowError)
  /\
  (forall L,
     Binary64.black_scholes_put L (Binary64.py 100) (Binary64.py 100)
       (Binary64.py 1) (Binary64.py 0.05) (Binary64.py 1e200)
     = Raise OverflowError).
Proof.
  split; intro L.
  - rewrite Binary64Facts.black_scholes_call_cases. reflexivity.
  - rewrite Binary64Facts.black_scholes_put_cases. reflexivity.
Qed.

(** C1, amended.  For positive spot, strike, maturity and volatility and
    a finite rate, each function raises [OverflowError] when the
    volatility is a Python float whose square overflows, and otherwise
    returns, as a numpy scalar, the value in binary64 arithmetic of the
    formula [S * cdf d1 - K * exp (- r * T) * cdf d2] (for the put
    [K * exp (- r * T) * cdf (- d2) - S * cdf (- d1)]), with [d2] computed
    by its own expression.  Read over the real numbers at the values of
    the inputs, that formula is the closed form of the specification, in
    which [d2] is [d1 - sigma * sqrt T] and [Phi] is the standard normal
    distribution function. *)
Theorem pricing_formula kS kK kT kr ks (S K T r sigma : float) :
  0 < Binary64.F2R S -> 0 < Binary64.F2R K -> 0 < Binary64.F2R T ->
  is_finite r = true -> 0 < Binary64.F2R sigma ->
  forall L : Binary64.library,
    Binary64.black_scholes_call L (Binary64.Num kS S) (Binary64.Num kK K)
      (Binary64.Num kT T) (Binary64.Num kr r) (Binary64.Num ks sigma)
    = (if Binary64.raises_overflow (Binary64.Num ks sigma)
       then Raise OverflowError
       else Ok (Binary64.np
                  (formula_call (Binary64.float_arithmetic L)
                     S K T r sigma)))
    /\
    Binary64.black_scholes_put L (Binary64.Num kS S) (Binary64.Num kK K)
      (Binary64.Num kT T) (Binary64.Num kr r) (Binary64.Num ks sigma)
    = (if Binary64.raises_overflow (Binary64.Num ks sigma)
       then Raise OverflowError
       else Ok (Binary64.np
                  (formula_put (Binary64.float_arithmetic L)
                     S K T r sigma)))
    /\
    formula_call real_arithmetic (Binary64.F2R S) (Binary64.F2R K)
      (Binary64.F2R T) (Binary64.F2R r) (Binary64.F2R sigma)
    = spec_call (Binary64.F2R S) (Binary64.F2R K) (Binary64.F2R T)
        (Binary64.F2R r) (Binary64.F2R sigma)
    /\
    formula_put real_arithmetic (Binary64.F2R S) (Binary64.F2R K)
      (Binary64.F2R T) (Binary64.F2R r) (Binary64.F2R sigma)
    = spec_put (Binary64.F2R S) (Binary64.F2R K) (Binary64.F2R T)
        (Binary64.F2R r) (Binary64.F2R sigma).
Proof.
  intros HS HK HT Hr Hsg L.
  rewrite Binary64Facts.black_scholes_call_cases,
    Binary64Facts.black_scholes_put_cases.
  rewrite Binary64Facts.raises_zero_division_pos by assumption.
  split; [reflexivity|]. split; [reflexivity|].
  rewrite <- call_R_formula, <- put_R_formula.
  rewrite spec_call_call_R, spec_put_put_R by assumption.
  split; reflexivity.
Qed.

Lemma pricing_formula_witness :
  0 < Binary64.F2R 100 /\ 0 < Binary64.F2R 100 /\ 0 < Binary64.F2R 1 /\
  is_finite 0.05 = true /\ 0 < Binary64.F2R 0.2 /\
  forall L : Binary64.library,
    Binary64.black_scholes_call L (Binary64.py 100) (Binary64.py 100)
      (Binary64.py 1) (Binary64.py 0.05) (Binary64.py 0.2)
    = (if Binary64.raises_overflow (Binary64.py 0.2)
       then Raise OverflowError
       else Ok (Binary64.np
                  (formula_call (Binary64.float_arithmetic L)
                     100%float 100%float 1%float 0.05%float 0.2%float)))
    /\
    Binary64.black_scholes_put L (Binary64.py 100) (Binary64.py 100)
      (Binary64.py 1) (Binary64.py 0.05) (Binary64.py 0.2)
    = (if Binary64.raises_overflow (Binary64.py 0.2)
       then Raise OverflowError
       else Ok (Binary64.np
                  (formula_put (Binary64.float_arithmetic L)
                     100%float 100%float 1%float 0.05%float 0.2%float)))
    /\
    formula_call real_arithmetic (Binary64.F2R 100) (Binary64.F2R 100)
      (Binary64.F2R 1) (Binary64.F2R 0.05) (Binary64.F2R 0.2)
    = spec_call (Binary64.F2R 100) (Binary64.F2R 100) (Binary64.F2R 1)
        (Binary64.F2R 0.05) (Binary64.F2R 0.2)
    /\
    formula_put real_arithmetic (Binary64.F2R 100) (Binary64.F2R 100)
      (Binary64.F2R 1) (Binary64.F2R 0.05) (Binary64.F2R 0.2)
    = spec_put (Binary64.F2R 100) (Binary64.F2R 100) (Binary64.F2R 1)
        (Binary64.F2R 0.05) (Binary64.F2R 0.2).
Proof.
  assert (H100 : 0 < Binary64.F2R 100)
    by (apply Binary64Facts.F2R_positive; reflexivity).
  assert (H1 : 0 < Binary64.F2R 1)
    by (apply Binary64Facts.F2R_positive; reflexivity).
  assert (Hr : is_finite 0.05 = true) by reflexivity.
  assert (Hs : 0 < Binary64.F2R 0.2)
    by (apply Binary64Facts.F2R_positive; reflexivity).
  split; [exact H100|]. split; [exact H100|]. split; [exact H1|].
  split; [exact Hr|]. split; [exact Hs|].
  exact (pricing_formula PyFloat PyFloat PyFloat PyFloat PyFloat
           100%float 100%float 1%float 0.05%float 0.2%float
           H100 H100 H1 Hr Hs).
Defined.










(** ** Inputs outside the valid range *)

(** C3, as stated, fails: at maturity zero with spot equal to strike
    both functions return NaN, and no error is raised. *)
Lemma zero_maturity_returns_nan :
  black_scholes_call (py 100) (py 100) (py 0) (py (5 / 100)) (py (2 / 10))
  = Ok (Num NpFloat64 NaN)
  /\
  black_scholes_put (py 100) (py 100) (py 0) (py (5 / 100)) (py (2 / 10))
  = Ok (Num NpFloat64 NaN).
Proof.
  rewrite black_scholes_call_eq, black_scholes_put_eq.
  unfold py. rewrite raises_zero_division_nonzero by lra. simpl val.
  destruct (degenerate_at_the_money 100 100 0 (5 / 100) (2 / 10))
    as [Hc Hp]; try lra.
  - replace (100 / 100) with 1 by lra. rewrite ln_1. lra.
  - rewrite Hc, Hp. split; reflexivity.
Qed.

(** C3, amended.  With a volatility or a maturity that is zero, the
    functions raise no error of their own: the quotient and the power may
    raise as on any other input, and otherwise the binary64 value of the
    formula is returned.  The divisor [sigma * sqrt T] is a zero or NaN,
    so [d1] and [d2] are each NaN, +inf or -inf, never a finite number.
    When [d1] or [d2] is NaN both prices are NaN, and this is the case
    whenever the maturity is zero and the quotient [S / K] is 1. *)
Theorem degenerate_inputs kS kK kT kr ks (S K T r sigma : float) :
  PrimFloat.is_zero sigma = true \/ PrimFloat.is_zero T = true ->
  forall L : Binary64.library,
    Binary64.black_scholes_call L (Binary64.Num kS S) (Binary64.Num kK K)
      (Binary64.Num kT T) (Binary64.Num kr r) (Binary64.Num ks sigma)
    = (if Binary64.raises_zero_division (Binary64.Num kS S)
            (Binary64.Num kK K)
       then Raise ZeroDivisionError
       else if Binary64.raises_overflow (Binary64.Num ks sigma)
       then Raise OverflowError
       else Ok (Binary64.np
                  (formula_call (Binary64.float_arithmetic L)
                     S K T r sigma)))
    /\
    Binary64.black_scholes_put L (Binary64.Num kS S) (Binary64.Num kK K)
      (Binary64.Num kT T) (Binary64.Num kr r) (Binary64.Num ks sigma)
    = (if Binary64.raises_zero_division (Binary64.Num kS S)
            (Binary64.Num kK K)
       then Raise ZeroDivisionError
       else if Binary64.raises_overflow (Binary64.Num ks sigma)
       then Raise OverflowError
       else Ok (Binary64.np
                  (formula_put (Binary64.float_arithmetic L)
                     S K T r sigma)))
    /\
    (formula_d1 (Binary64.float_arithmetic L) S K T r sigma = nan
     \/ formula_d1 (Binary64.float_arithmetic L) S K T r sigma = infinity
     \/ formula_d1 (Binary64.float_arithmetic L) S K T r sigma
        = neg_infinity)
    /\
    (formula_d2 (Binary64.float_arithmetic L) S K T r sigma = nan
     \/ formula_d2 (Binary64.float_arithmetic L) S K T r sigma = infinity
     \/ formula_d2 (Binary64.float_arithmetic L) S K T r sigma
        = neg_infinity)
    /\
    (formula_d1 (Binary64.float_arithmetic L) S K T r sigma = nan
     \/ formula_d2 (Binary64.float_arithmetic L) S K T r sigma = nan ->
     formula_call (Binary64.float_arithmetic L) S K T r sigma = nan
     /\ formula_put (Binary64.float_arithmetic L) S K T r sigma = nan)
    /\
    (PrimFloat.is_zero T = true -> (S / K =? 1)%float = true ->
     formula_d1 (Binary64.float_arithmetic L) S K T r sigma = nan
     /\ formula_d2 (Binary64.float_arithmetic L) S K T r sigma = nan).
Proof.
  intros Hdeg L.
  split; [apply Binary64Facts.black_scholes_call_cases|].
  split; [apply Binary64Facts.black_scholes_put_cases|].
  split.
  { unfold formula_d1; simpl.
    apply Binary64Facts.div_degenerate, Binary64Facts.denominator_degenerate.
    assumption. }
  split.
  { unfold formula_d2; simpl.
    apply Binary64Facts.div_degenerate, Binary64Facts.denominator_degenerate.
    assumption. }
  split.
  { intros [H|H]; split.
    - apply Binary64Facts.formula_call_d1_nan; assumption.
    - apply Binary64Facts.formula_put_d1_nan; assumption.
    - apply Binary64Facts.formula_call_d2_nan; assumption.
    - apply Binary64Facts.formula_put_d2_nan; assumption. }
  intros HT HQ. split.
  - apply Binary64Facts.at_the_money_zero_maturity_d1; assumption.
  - apply Binary64Facts.at_the_money_zero_maturity_d2; assumption.
Qed.

Lemma degenerate_inputs_witness :
  (PrimFloat.is_zero 0 = true \/ PrimFloat.is_zero 1 = true) /\
  forall L : Binary64.library,
    Binary64.black_scholes_call L (Binary64.py 50) (Binary64.py 100)
      (Binary64.py 1) (Binary64.py 0.05) (Binary64.py 0)
    = (if Binary64.raises_zero_division (Binary64.py 50) (Binary64.py 100)
       then Raise ZeroDivisionError
       else if Binary64.raises_overflow (Binary64.py 0)
       then Raise OverflowError
       else Ok (Binary64.np
                  (formula_call (Binary64.float_arithmetic L)
                     50%float 100%float 1%float 0.05%float 0%float)))
    /\
    Binary64.black_scholes_put L (Binary64.py 50) (Binary64.py 100)
      (Binary64.py 1) (Binary64.py 0.05) (Binary64.py 0)
    = (if Binary64.raises_zero_division (Binary64.py 50) (Binary64.py 100)
       then Raise ZeroDivisionError
       else if Binary64.raises_overflow (Binary64.py 0)
       then Raise OverflowError
       else Ok (Binary64.np
                  (formula_put (Binary64.float_arithmetic L)
                     50%float 100%float 1%float 0.05%float 0%float)))
    /\
    (formula_d1 (Binary64.float_arithmetic L)
       50%float 100%float 1%float 0.05%float 0%float = nan
     \/ formula_d1 (Binary64.float_arithmetic L)
          50%float 100%float 1%float 0.05%float 0%float = infinity
     \/ formula_d1 (Binary64.float_arithmetic L)
          50%float 100%float 1%float 0.05%float 0%float = neg_infinity)
    /\
    (formula_d2 (Binary64.float_arithmetic L)
       50%float 100%float 1%float 0.05%float 0%float = nan
     \/ formula_d2 (Binary64.float_arithmetic L)
          50%float 100%float 1%float 0.05%float 0%float = infinity
     \/ formula_d2 (Binary64.float_arithmetic L)
          50%float 100%float 1%float 0.05%float 0%float = neg_infinity)
    /\
    (formula_d1 (Binary64.float_arithmetic L)
       50%float 100%float 1%float 0.05%float 0%float = nan
     \/ formula_d2 (Binary64.float_arithmetic L)
          50%float 100%float 1%float 0.05%float 0%float = nan ->
     formula_call (Binary64.float_arithmetic L)
       50%float 100%float 1%float 0.05%float 0%float = nan
     /\ formula_put (Binary64.float_arithmetic L)
          50%float 100%float 1%float 0.05%float 0%float = nan)
    /\
    (PrimFloat.is_zero 1 = true -> (50 / 100 =? 1)%float = true ->
     formula_d1 (Binary64.float_arithmetic L)
       50%float 100%float 1%float 0.05%float 0%float = nan
     /\ formula_d2 (Binary64.float_arithmetic L)
          50%float 100%float 1%float 0.05%float 0%float = nan).
Proof.
  assert (H : PrimFloat.is_zero 0 = true \/ PrimFloat.is_zero 1 = true)
    by (left; reflexivity).
  split; [exact H|].
  exact (degenerate_inputs PyFloat PyFloat PyFloat PyFloat PyFloat
           50%float 100%float 1%float 0.05%float 0%float H).
Defined.

(** C4, as stated, fails.  No input is rejected for being out of range:
    spot zero, a negative rate and a negative volatility are priced, a
    negative strike and a negative maturity give NaN, and strike zero ends
    in Python's [ZeroDivisionError], raised by the quotient [S / K] of the
    formula itself. *)
Lemma invalid_inputs_are_priced :
  (forall L, exists c,
      Binary64.black_scholes_call L (Binary64.py 0) (Binary64.py 100)
        (Binary64.py 1) (Binary64.py 0.05) (Binary64.py 0.2)
      = Ok (Binary64.np c))
  /\
  (forall L,
      Binary64.black_scholes_call L (Binary64.py 100) (Binary64.py (-100))
        (Binary64.py 1) (Binary64.py 0.05) (Binary64.py 0.2)
      = Ok (Binary64.np nan))
  /\
  (forall L,
      Binary64.black_scholes_call L (Binary64.py 100) (Binary64.py 100)
        (Binary64.py (-1)) (Binary64.py 0.05) (Binary64.py 0.2)
      = Ok (Binary64.np nan))
  /\
  (forall L, exists c,
      Binary64.black_scholes_call L (Binary64.py 100) (Binary64.py 100)
        (Binary64.py 1) (Binary64.py (-0.05)) (Binary64.py 0.2)
      = Ok (Binary64.np c))
  /\
  (forall L, exists c,
      Binary64.black_scholes_call L (Binary64.py 100) (Binary64.py 100)
        (Binary64.py 1) (Binary64.py 0.05) (Binary64.py (-0.2))
      = Ok (Binary64.np c))
  /\
  (forall L,
      Binary64.black_scholes_call L (Binary64.py 100) (Binary64.py 0)
        (Binary64.py 1) (Binary64.py 0.05) (Binary64.py 0.2)
      = Raise ZeroDivisionError).
Proof.
  split; [|split; [|split; [|split; [|split]]]]; intro L;
    rewrite Binary64Facts.black_scholes_call_cases.
  - eexists. reflexivity.
  - replace (Binary64.raises_zero_division _ _) with false by reflexivity.
    replace (Binary64.raises_overflow _) with false by reflexivity.
    unfold Binary64.py; cbn [Binary64.val].
    rewrite Binary64Facts.formula_call_d1_nan; [reflexivity|].
    apply Binary64Facts.negative_quotient_d1. reflexivity.
  - replace (Binary64.raises_zero_division _ _) with false by reflexivity.
    replace (Binary64.raises_overflow _) with false by reflexivity.
    unfold Binary64.py; cbn [Binary64.val].
    rewrite Binary64Facts.formula_call_d1_nan; [reflexivity|].
    apply Binary64Facts.negative_maturity_d1. reflexivity.
  - eexists. reflexivity.
  - eexists. reflexivity.
  - reflexivity.
Qed.

(** C4, amended.  The functions check no parameter and have no error of
    their own.  On every input, of any sign, each of them raises
    [ZeroDivisionError] exactly when spot and strike are Python floats and
    the strike is a zero, raises [OverflowError] exactly when it does not
    raise the former and the volatility is a finite Python float whose
    square overflows, and in every other case returns a binary64 value,
    which is NaN when the maturity is negative or the quotient [S / K]
    is. *)
Theorem no_parameter_validation
        (L : Binary64.library) (S K T r sigma : Binary64.num) :
  (Binary64.black_scholes_call L S K T r sigma = Raise ZeroDivisionError
   <-> Binary64.raises_zero_division S K = true)
  /\
  (Binary64.black_scholes_call L S K T r sigma = Raise OverflowError
   <-> Binary64.raises_zero_division S K = false
       /\ Binary64.raises_overflow sigma = true)
  /\
  (Binary64.black_scholes_put L S K T r sigma = Raise ZeroDivisionError
   <-> Binary64.raises_zero_division S K = true)
  /\
  (Binary64.black_scholes_put L S K T r sigma = Raise OverflowError
   <-> Binary64.raises_zero_division S K = false
       /\ Binary64.raises_overflow sigma = true)
  /\
  (Binary64.raises_zero_division S K = false ->
   Binary64.raises_overflow sigma = false ->
   exists c p,
     Binary64.black_scholes_call L S K T r sigma = Ok (Binary64.np c)
     /\ Binary64.black_scholes_put L S K T r sigma = Ok (Binary64.np p)
     /\ ((Binary64.val T <? 0)%float = true
         \/ (Binary64.val S / Binary64.val K <? 0)%float = true ->
         c = nan /\ p = nan)).
Proof.
  rewrite Binary64Facts.black_scholes_call_cases,
    Binary64Facts.black_scholes_put_cases.
  destruct (Binary64.raises_zero_division S K);
    destruct (Binary64.raises_overflow sigma);
    repeat split; try discriminate; try reflexivity;
    try (intros [H1 H2]; discriminate); try (intros H1 H2; discriminate).
  intros _ _. do 2 eexists. split; [reflexivity|]. split; [reflexivity|].
  intros [H|H]; split.
  - apply Binary64Facts.formula_call_d1_nan,
      Binary64Facts.negative_maturity_d1; assumption.
  - apply Binary64Facts.formula_put_d1_nan,
      Binary64Facts.negative_maturity_d1; assumption.
  - apply Binary64Facts.formula_call_d1_nan,
      Binary64Facts.negative_quotient_d1; assumption.
  - apply Binary64Facts.formula_put_d1_nan,
      Binary64Facts.negative_quotient_d1; assumption.
Qed.

(** ** The sweep *)

(** C5. The call grid and the put grid are built without error, have one
    row per volatility and one column per spot price, and cell [[i][j]]
    is what the pricing function returns at spot [spots[j]] and volatility
    [vols[i]], with the strike, maturity and rate of the number inputs. *)
Theorem grid_shape_and_cells K T r sigma min_S max_S min_sigma max_sigma :
  exists call_grid put_grid,
    call_prices K T r (spot_prices min_S max_S)
      (volatilities min_sigma max_sigma sigma) = Ok call_grid
    /\ put_prices K T r (spot_prices min_S max_S)
         (volatilities min_sigma max_sigma sigma) = Ok put_grid
    /\ length call_grid = length (volatilities min_sigma max_sigma sigma)
    /\ length put_grid = length (volatilities min_sigma max_sigma sigma)
    /\ Forall (fun row => length row = length (spot_prices min_S max_S))
         call_grid
    /\ Forall (fun row => length row = length (spot_prices min_S max_S))
         put_grid
    /\ forall i j v s,
         nth_error (volatilities min_sigma max_sigma sigma) i = Some v ->
         nth_error (spot_prices min_S max_S) j = Some s ->
         exists c p,
           cell call_grid i j = Some c
           /\ cell put_grid i j = Some p
           /\ black_scholes_call (np s) (py K) (py T) (py r) (np v) = Ok c
           /\ black_scholes_put (np s) (py K) (py T) (py r) (np v) = Ok p.
Proof.
  set (spots := spot_prices min_S max_S).
  set (vols := volatilities min_sigma max_sigma sigma).
  exists (map (fun v => map (fun s => call_cell K T r s v) spots) vols),
         (map (fun v => map (fun s => put_cell K T r s v) spots) vols).
  split; [apply call_prices_eq|].
  split; [apply put_prices_eq|].
  split; [apply length_map|].
  split; [apply length_map|].
  split; [apply Forall_map, Forall_forall; intros; apply length_map|].
  split; [apply Forall_map, Forall_forall; intros; apply length_map|].
  intros i j v s Hi Hj.
  exists (call_cell K T r s v), (put_cell K T r s v).
  split; [apply (cell_map2 (fun v s => call_cell K T r s v)); assumption|].
  split; [apply (cell_map2 (fun v s => put_cell K T r s v)); assumption|].
  split; [apply black_scholes_call_np|apply black_scholes_put_np].
Qed.

(** C6. The volatility of the number input is an element of the
    volatility axis, the axis has no repeated value, and so the value
    occurs in it exactly once, whether or not it is one of the samples. *)
Theorem base_volatility_once min_sigma max_sigma sigma :
  In sigma (volatilities min_sigma max_sigma sigma)
  /\ NoDup (volatilities min_sigma max_sigma sigma)
  /\ count_occ Req_dec_T (volatilities min_sigma max_sigma sigma) sigma
     = 1%nat.
Proof.
  assert (Hin : In sigma (volatilities min_sigma max_sigma sigma))
    by (apply volatilities_In; now right).
  assert (Hnd : NoDup (volatilities min_sigma max_sigma sigma))
    by apply strict_sorted_NoDup, np_unique_sorted.
  split; [assumption|]. split; [assumption|].
  apply (proj1 (NoDup_count_occ' Req_dec_T _) Hnd). assumption.
Qed.



(** C10, as stated, fails: with both volatility sliders at 0.1 the ten
    samples coincide and the axis has two elements. *)
Lemma equal_slider_bounds_collapse :
  length (volatilities (1 / 10) (1 / 10) (2 / 10)) = 2%nat
  /\ ~ (length (volatilities (1 / 10) (1 / 10) (2 / 10)) = 10%nat
        \/ length (volatilities (1 / 10) (1 / 10) (2 / 10)) = 11%nat).
Proof.
  assert (H : length (volatilities (1 / 10) (1 / 10) (2 / 10)) = 2%nat).
  { rewrite volatilities_length.
    destruct (Req_dec_T (1 / 10) (1 / 10)) as [_|Hne]; [|lra].
    destruct (in_dec Req_dec_T (2 / 10) (linspace (1 / 10) (1 / 10) 10))
      as [Hin|_]; [|reflexivity].
    apply linspace_const in Hin. lra. }
  split; [assumption|]. rewrite H. intros [E|E]; discriminate E.
Qed.

(** C10, amended.  When no sample and not the volatility of the number
    input is NaN, the volatility axis is strictly increasing and the spot
    axis has ten elements.  The volatility axis holds one element for
    each distinct value among the ten samples, as [np.linspace] rounds
    them, and one more when the volatility of the number input equals
    none of them; the number of distinct samples is between one and ten.
    When the ten samples differ from one another the axis has ten
    elements if the volatility of the number input equals one of them and
    eleven otherwise. *)
Theorem axes_lengths (min_S max_S min_sigma max_sigma sigma : float) :
  forallb (fun x => negb (is_nan x))
    (Binary64.np_append (Binary64.linspace min_sigma max_sigma 10) sigma)
  = true ->
  StronglySorted (fun a b => (a <? b)%float = true)
    (Binary64.volatilities min_sigma max_sigma sigma)
  /\ length (Binary64.spot_prices min_S max_S) = 10%nat
  /\ length (Binary64.volatilities min_sigma max_sigma sigma)
     = (length (Binary64.np_unique
                  (Binary64.linspace min_sigma max_sigma 10))
        + if existsb (fun x => (x =? sigma)%float)
               (Binary64.linspace min_sigma max_sigma 10)
          then 0 else 1)%nat
  /\ (1 <= length (Binary64.np_unique
                     (Binary64.linspace min_sigma max_sigma 10))
      <= 10)%nat
  /\ (ForallOrdPairs (fun a b => (a =? b)%float = false)
        (Binary64.linspace min_sigma max_sigma 10) ->
      length (Binary64.volatilities min_sigma max_sigma sigma)
      = if existsb (fun x => (x =? sigma)%float)
             (Binary64.linspace min_sigma max_sigma 10)
        then 10%nat else 11%nat).
Proof.
  intro H. apply Binary64Facts.numbers_forallb in H.
  split; [apply Binary64Facts.np_unique_increasing; assumption|].
  split; [reflexivity|].
  split; [apply Binary64Facts.np_unique_append_length; assumption|].
  pose proof H as Hall.
  apply Binary64Facts.numbers_app in H. destruct H as [H _].
  split.
  - rewrite <- (Binary64Facts.linspace_ten min_sigma max_sigma) at 3.
    apply Binary64Facts.np_unique_length_bounds; [assumption|discriminate].
  - intro Hd. unfold Binary64.volatilities.
    rewrite Binary64Facts.np_unique_append_length by assumption.
    rewrite Binary64Facts.np_unique_distinct_length by assumption.
    rewrite Binary64Facts.linspace_ten.
    destruct (existsb _ _); reflexivity.
Qed.

Lemma axes_lengths_witness :
  forallb (fun x => negb (is_nan x))
    (Binary64.np_append (Binary64.linspace 0.1 1 10) 0.3) = true
  /\
  (StronglySorted (fun a b => (a <? b)%float = true)
     (Binary64.volatilities 0.1 1 0.3)
   /\ length (Binary64.spot_prices 80 120) = 10%nat
   /\ length (Binary64.volatilities 0.1 1 0.3)
      = (length (Binary64.np_unique (Binary64.linspace 0.1 1 10))
         + if existsb (fun x => (x =? 0.3)%float)
                (Binary64.linspace 0.1 1 10)
           then 0 else 1)%nat
   /\ (1 <= length (Binary64.np_unique (Binary64.linspace 0.1 1 10))
       <= 10)%nat
   /\ (ForallOrdPairs (fun a b => (a =? b)%float = false)
         (Binary64.linspace 0.1 1 10) ->
       length (Binary64.volatilities 0.1 1 0.3)
       = if existsb (fun x => (x =? 0.3)%float)
              (Binary64.linspace 0.1 1 10)
         then 10%nat else 11%nat)).
Proof.
  assert (H : forallb (fun x => negb (is_nan x))
                (Binary64.np_append (Binary64.linspace 0.1 1 10) 0.3)
              = true)
    by reflexivity.
  split; [exact H|].
  exact (axes_lengths 80 120 0.1 1 0.3 H).
Defined.

(** * Further properties of the code *)

(** ** The run of the script in binary64 *)

(** X19. The run of the script ends in [ZeroDivisionError] exactly when
    the strike is a zero, and in [OverflowError] exactly when the strike
    is not a zero and the volatility is finite with an overflowing
    square; both come from the first headline price, before any chart.
    In every other case the run reaches its end, whatever the other
    inputs are: the grids have one row per volatility and ten columns, and
    the traces have one point per element of their axis. *)
Theorem script_stops_or_completes
        (L : Binary64.library)
        (S K T r sigma min_S max_S min_sigma max_sigma : float) :
  (Binary64.script L S K T r sigma min_S max_S min_sigma max_sigma
   = Raise ZeroDivisionError
   <-> PrimFloat.is_zero K = true)
  /\
  (Binary64.script L S K T r sigma min_S max_S min_sigma max_sigma
   = Raise OverflowError
   <-> PrimFloat.is_zero K = false
       /\ Binary64.raises_overflow (Binary64.py sigma) = true)
  /\
  (PrimFloat.is_zero K = false ->
   Binary64.raises_overflow (Binary64.py sigma) = false ->
   exists ch,
     Binary64.script L S K T r sigma min_S max_S min_sigma max_sigma
     = Ok ch
     /\ Binary64.spot_axis ch = Binary64.spot_prices min_S max_S
     /\ Binary64.volatility_axis ch
        = Binary64.volatilities min_sigma max_sigma sigma
     /\ length (Binary64.call_grid ch)
        = length (Binary64.volatility_axis ch)
     /\ length (Binary64.put_grid ch)
        = length (Binary64.volatility_axis ch)
     /\ Forall (fun row => length row = 10%nat) (Binary64.call_grid ch)
     /\ Forall (fun row => length row = 10%nat) (Binary64.put_grid ch)
     /\ length (Binary64.spot_call_trace ch) = 10%nat
     /\ length (Binary64.spot_put_trace ch) = 10%nat
     /\ length (Binary64.volatility_call_trace ch)
        = length (Binary64.volatility_axis ch)
     /\ length (Binary64.volatility_put_trace ch)
        = length (Binary64.volatility_axis ch)).
Proof.
  rewrite Binary64Facts.script_cases.
  destruct (PrimFloat.is_zero K);
    destruct (Binary64.raises_overflow (Binary64.py sigma));
    (split; [split; [discriminate || reflexivity
                    |discriminate || reflexivity]|]);
    (split; [split; [discriminate || (intros [H1 H2]; discriminate)
                                  || (split; reflexivity)
                    |discriminate || (intros [H1 H2]; discriminate)
                                  || reflexivity]|]);
    try (intros H1 H2; discriminate).
  intros _ _. eexists. split; [reflexivity|].
  cbn [Binary64.spot_axis Binary64.volatility_axis Binary64.call_grid
       Binary64.put_grid Binary64.spot_call_trace Binary64.spot_put_trace
       Binary64.volatility_call_trace Binary64.volatility_put_trace].
  split; [reflexivity|]. split; [reflexivity|].
  split; [apply length_map|]. split; [apply length_map|].
  split; [apply Forall_map, Forall_forall; intros; rewrite length_map;
          apply Binary64Facts.linspace_ten|].
  split; [apply Forall_map, Forall_forall; intros; rewrite length_map;
          apply Binary64Facts.linspace_ten|].
  split; [rewrite length_map; apply Binary64Facts.linspace_ten|].
  split; [rewrite length_map; apply Binary64Facts.linspace_ten|].
  split; apply length_map.
Qed.

(** X20. In binary64 the two grids are built without an exception for
    every input, the strike zero and an overflowing volatility included:
    in a cell the spot price and the volatility are numpy scalars.  Cell
    [[i][j]] is what the pricing function returns at spot [spots[j]] and
    volatility [vols[i]]. *)
Theorem grid_cells_binary64
        (L : Binary64.library)
        (K T r sigma min_S max_S min_sigma max_sigma : float) :
  exists call_grid put_grid,
    Binary64.call_prices L K T r (Binary64.spot_prices min_S max_S)
      (Binary64.volatilities min_sigma max_sigma sigma) = Ok call_grid
    /\ Binary64.put_prices L K T r (Binary64.spot_prices min_S max_S)
         (Binary64.volatilities min_sigma max_sigma sigma) = Ok put_grid
    /\ length call_grid
       = length (Binary64.volatilities min_sigma max_sigma sigma)
    /\ length put_grid
       = length (Binary64.volatilities min_sigma max_sigma sigma)
    /\ Forall (fun row => length row = 10%nat) call_grid
    /\ Forall (fun row => length row = 10%nat) put_grid
    /\ forall i j v s,
         nth_error (Binary64.volatilities min_sigma max_sigma sigma) i
         = Some v ->
         nth_error (Binary64.spot_prices min_S max_S) j = Some s ->
         exists c p,
           cell call_grid i j = Some c
           /\ cell put_grid i j = Some p
           /\ Binary64.black_scholes_call L (Binary64.np s)
                (Binary64.py K) (Binary64.py T) (Binary64.py r)
                (Binary64.np v) = Ok c
           /\ Binary64.black_scholes_put L (Binary64.np s)
                (Binary64.py K) (Binary64.py T) (Binary64.py r)
                (Binary64.np v) = Ok p.
Proof.
  do 2 eexists.
  split; [apply Binary64Facts.call_prices_grid|].
  split; [apply Binary64Facts.put_prices_grid|].
  split; [apply length_map|]. split; [apply length_map|].
  split; [apply Forall_map, Forall_forall; intros; rewrite length_map;
          apply Binary64Facts.linspace_ten|].
  split; [apply Forall_map, Forall_forall; intros; rewrite length_map;
          apply Binary64Facts.linspace_ten|].
  intros i j v s Hi Hj.
  exists (Binary64Facts.call_value L K T r s v),
         (Binary64Facts.put_value L K T r s v).
  split; [apply (cell_map2
                   (fun v s => Binary64Facts.call_value L K T r s v));
          assumption|].
  split; [apply (cell_map2
                   (fun v s => Binary64Facts.put_value L K T r s v));
          assumption|].
  split; [apply Binary64Facts.black_scholes_call_grid
         |apply Binary64Facts.black_scholes_put_grid].
Qed.

(** X21. In binary64, when the power of the volatility of the number
    input does not overflow and row [i] of the volatility axis is that
    volatility, the traces of the plot against the spot price are computed
    without an exception and are row [i] of the call grid and of the put
    grid, value for value. *)
Theorem spot_slice_binary64
        (K T r sigma min_S max_S min_sigma max_sigma : float) (i : nat) :
  Binary64.raises_overflow (Binary64.py sigma) = false ->
  nth_error (Binary64.volatilities min_sigma max_sigma sigma) i
  = Some sigma ->
  forall L : Binary64.library,
  exists call_grid put_grid call_slice put_slice,
    Binary64.call_prices L K T r (Binary64.spot_prices min_S max_S)
      (Binary64.volatilities min_sigma max_sigma sigma) = Ok call_grid
    /\ Binary64.put_prices L K T r (Binary64.spot_prices min_S max_S)
         (Binary64.volatilities min_sigma max_sigma sigma) = Ok put_grid
    /\ Binary64.line_spot_call L K T r sigma
         (Binary64.spot_prices min_S max_S) = Ok call_slice
    /\ Binary64.line_spot_put L K T r sigma
         (Binary64.spot_prices min_S max_S) = Ok put_slice
    /\ nth_error call_grid i = Some call_slice
    /\ nth_error put_grid i = Some put_slice.
Proof.
  intros Ho Hi L. do 4 eexists.
  split; [apply Binary64Facts.call_prices_grid|].
  split; [apply Binary64Facts.put_prices_grid|].
  split; [apply Binary64Facts.line_spot_call_trace; assumption|].
  split; [apply Binary64Facts.line_spot_put_trace; assumption|].
  split.
  - apply (map_nth_error
             (fun v => map (fun s => Binary64Facts.call_value L K T r s v)
                           (Binary64.spot_prices min_S max_S)) _ _ Hi).
  - apply (map_nth_error
             (fun v => map (fun s => Binary64Facts.put_value L K T r s v)
                           (Binary64.spot_prices min_S max_S)) _ _ Hi).
Qed.

Lemma spot_slice_binary64_witness :
  Binary64.raises_overflow (Binary64.py 0.2) = false /\
  nth_error (Binary64.volatilities 0.1 0.3 0.2) 5 = Some 0.2%float /\
  forall L : Binary64.library,
  exists call_grid put_grid call_slice put_slice,
    Binary64.call_prices L 100 1 0.05 (Binary64.spot_prices 80 120)
      (Binary64.volatilities 0.1 0.3 0.2) = Ok call_grid
    /\ Binary64.put_prices L 100 1 0.05 (Binary64.spot_prices 80 120)
         (Binary64.volatilities 0.1 0.3 0.2) = Ok put_grid
    /\ Binary64.line_spot_call L 100 1 0.05 0.2
         (Binary64.spot_prices 80 120) = Ok call_slice
    /\ Binary64.line_spot_put L 100 1 0.05 0.2
         (Binary64.spot_prices 80 120) = Ok put_slice
    /\ nth_error call_grid 5 = Some call_slice
    /\ nth_error put_grid 5 = Some put_slice.
Proof.
  assert (Ho : Binary64.raises_overflow (Binary64.py 0.2) = false)
    by reflexivity.
  assert (Hi : nth_error (Binary64.volatilities 0.1 0.3 0.2) 5
               = Some 0.2%float) by reflexivity.
  split; [exact Ho|]. split; [exact Hi|].
  exact (spot_slice_binary64 100 1 0.05 0.2 80 120 0.1 0.3 5 Ho Hi).
Defined.

(** X6. In binary64, when the headline prices are returned (the strike is
    not a zero and the power of the volatility does not overflow), the
    traces of the plot against the volatility are computed without an
    exception and have one point per volatility; at the row of the
    volatility of the number input they pass through the headline
    prices. *)
Theorem headline_on_volatility_line
        (S K T r sigma min_sigma max_sigma : float) (i : nat) :
  PrimFloat.is_zero K = false ->
  Binary64.raises_overflow (Binary64.py sigma) = false ->
  nth_error (Binary64.volatilities min_sigma max_sigma sigma) i
  = Some sigma ->
  forall L : Binary64.library,
  exists c p call_trace put_trace,
    Binary64.call_price L S K T r sigma = Ok c
    /\ Binary64.put_price L S K T r sigma = Ok p
    /\ Binary64.line_volatility_call L S K T r
         (Binary64.volatilities min_sigma max_sigma sigma) = Ok call_trace
    /\ Binary64.line_volatility_put L S K T r
         (Binary64.volatilities min_sigma max_sigma sigma) = Ok put_trace
    /\ length call_trace
       = length (Binary64.volatilities min_sigma max_sigma sigma)
    /\ length put_trace
       = length (Binary64.volatilities min_sigma max_sigma sigma)
    /\ nth_error call_trace i = Some c
    /\ nth_error put_trace i = Some p.
Proof.
  intros HK Ho Hi L.
  exists (Binary64Facts.call_value L K T r S sigma),
         (Binary64Facts.put_value L K T r S sigma).
  do 2 eexists.
  split; [rewrite Binary64Facts.call_price_cases, HK, Ho; reflexivity|].
  split; [rewrite Binary64Facts.put_price_cases, HK, Ho; reflexivity|].
  split; [apply Binary64Facts.line_volatility_call_trace; assumption|].
  split; [apply Binary64Facts.line_volatility_put_trace; assumption|].
  split; [apply length_map|]. split; [apply length_map|].
  split.
  - apply (map_nth_error
             (fun v => Binary64Facts.call_value L K T r S v) _ _ Hi).
  - apply (map_nth_error
             (fun v => Binary64Facts.put_value L K T r S v) _ _ Hi).
Qed.

Lemma headline_on_volatility_line_witness :
  PrimFloat.is_zero 100 = false /\
  Binary64.raises_overflow (Binary64.py 0.2) = false /\
  nth_error (Binary64.volatilities 0.1 0.3 0.2) 5 = Some 0.2%float /\
  forall L : Binary64.library,
  exists c p call_trace put_trace,
    Binary64.call_price L 100 100 1 0.05 0.2 = Ok c
    /\ Binary64.put_price L 100 100 1 0.05 0.2 = Ok p
    /\ Binary64.line_volatility_call L 100 100 1 0.05
         (Binary64.volatilities 0.1 0.3 0.2) = Ok call_trace
    /\ Binary64.line_volatility_put L 100 100 1 0.05
         (Binary64.volatilities 0.1 0.3 0.2) = Ok put_trace
    /\ length call_trace = length (Binary64.volatilities 0.1 0.3 0.2)
    /\ length put_trace = length (Binary64.volatilities 0.1 0.3 0.2)
    /\ nth_error call_trace 5 = Some c
    /\ nth_error put_trace 5 = Some p.
Proof.
  assert (HK : PrimFloat.is_zero 100 = false) by reflexivity.
  assert (Ho : Binary64.raises_overflow (Binary64.py 0.2) = false)
    by reflexivity.
  assert (Hi : nth_error (Binary64.volatilities 0.1 0.3 0.2) 5
               = Some 0.2%float) by reflexivity.
  split; [exact HK|]. split; [exact Ho|]. split; [exact Hi|].
  exact (headline_on_volatility_line 100 100 1 0.05 0.2 0.1 0.3 5
           HK Ho Hi).
Defined.

(** X22. With sliders at 0.1 and 1, [np.linspace] returns
    0.30000000000000004 as its third sample, not 0.3: a volatility of 0.3
    in the number input makes an axis of eleven values, a volatility of
    0.2, which the second sample equals, an axis of ten.  With both
    sliders at 0.1 the axis has two values. *)
Theorem rounded_samples_and_axis_length :
  nth_error (Binary64.linspace 0.1 1 10) 1 = Some 0.2%float
  /\ nth_error (Binary64.linspace 0.1 1 10) 2
     = Some 0.30000000000000004%float
  /\ (0.30000000000000004 =? 0.3)%float = false
  /\ length (Binary64.volatilities 0.1 1 0.3) = 11%nat
  /\ length (Binary64.volatilities 0.1 1 0.2) = 10%nat
  /\ length (Binary64.volatilities 0.1 0.1 0.2) = 2%nat.
Proof. repeat split; reflexivity. Qed.

(** X23. In binary64, when the strike is not a zero and the spot price of
    the number input is the sample at column [j] of the spot axis, the
    traces of the plot against the volatility, which take the spot price
    as a Python float, are computed without an exception and are column
    [j] of the call grid and of the put grid, value for value. *)
Theorem volatility_line_binary64
        (S K T r sigma min_S max_S min_sigma max_sigma : float) (j : nat) :
  PrimFloat.is_zero K = false ->
  nth_error (Binary64.spot_prices min_S max_S) j = Some S ->
  forall L : Binary64.library,
  exists call_grid put_grid call_trace put_trace,
    Binary64.call_prices L K T r (Binary64.spot_prices min_S max_S)
      (Binary64.volatilities min_sigma max_sigma sigma) = Ok call_grid
    /\ Binary64.put_prices L K T r (Binary64.spot_prices min_S max_S)
         (Binary64.volatilities min_sigma max_sigma sigma) = Ok put_grid
    /\ Binary64.line_volatility_call L S K T r
         (Binary64.volatilities min_sigma max_sigma sigma) = Ok call_trace
    /\ Binary64.line_volatility_put L S K T r
         (Binary64.volatilities min_sigma max_sigma sigma) = Ok put_trace
    /\ forall i,
         (i < length (Binary64.volatilities min_sigma max_sigma sigma))%nat ->
         nth_error call_trace i = cell call_grid i j
         /\ nth_error put_trace i = cell put_grid i j.
Proof.
  intros HK Hj L. do 4 eexists.
  split; [apply Binary64Facts.call_prices_grid|].
  split; [apply Binary64Facts.put_prices_grid|].
  split; [apply Binary64Facts.line_volatility_call_trace; assumption|].
  split; [apply Binary64Facts.line_volatility_put_trace; assumption|].
  intros i Hi.
  destruct (nth_error (Binary64.volatilities min_sigma max_sigma sigma) i)
    as [v|] eqn:Ev; [|apply nth_error_None in Ev; lia].
  rewrite (map_nth_error
             (fun v => Binary64Facts.call_value L K T r S v) _ _ Ev).
  rewrite (map_nth_error
             (fun v => Binary64Facts.put_value L K T r S v) _ _ Ev).
  rewrite (cell_map2 (fun v s => Binary64Facts.call_value L K T r s v)
             _ _ _ _ _ _ Ev Hj).
  rewrite (cell_map2 (fun v s => Binary64Facts.put_value L K T r s v)
             _ _ _ _ _ _ Ev Hj).
  split; reflexivity.
Qed.

Lemma volatility_line_binary64_witness :
  PrimFloat.is_zero 100 = false /\
  nth_error (Binary64.spot_prices 100 120) 0 = Some 100%float /\
  forall L : Binary64.library,
  exists call_grid put_grid call_trace put_trace,
    Binary64.call_prices L 100 1 0.05 (Binary64.spot_prices 100 120)
      (Binary64.volatilities 0.1 0.3 0.2) = Ok call_grid
    /\ Binary64.put_prices L 100 1 0.05 (Binary64.spot_prices 100 120)
         (Binary64.volatilities 0.1 0.3 0.2) = Ok put_grid
    /\ Binary64.line_volatility_call L 100 100 1 0.05
         (Binary64.volatilities 0.1 0.3 0.2) = Ok call_trace
    /\ Binary64.line_volatility_put L 100 100 1 0.05
         (Binary64.volatilities 0.1 0.3 0.2) = Ok put_trace
    /\ forall i,
         (i < length (Binary64.volatilities 0.1 0.3 0.2))%nat ->
         nth_error call_trace i = cell call_grid i 0
         /\ nth_error put_trace i = cell put_grid i 0.
Proof.
  assert (HK : PrimFloat.is_zero 100 = false) by reflexivity.
  assert (Hj : nth_error (Binary64.spot_prices 100 120) 0 = Some 100%float)
    by reflexivity.
  split; [exact HK|]. split; [exact Hj|].
  exact (volatility_line_binary64 100 100 1 0.05 0.2 100 120 0.1 0.3 0
           HK Hj).
Defined.

(** ** The axes and the flattened grids *)

(** X7. When the spot price of the number input is the sample at column
    [j] of the spot axis and the strike is not zero, the traces of the
    plot against the volatility are column [j] of the call grid and of the
    put grid. *)
Theorem volatility_line_is_grid_column
        S K T r sigma min_S max_S min_sigma max_sigma j :
  K <> 0 ->
  nth_error (spot_prices min_S max_S) j = Some S ->
  exists call_grid put_grid call_trace put_trace,
    call_prices K T r (spot_prices min_S max_S)
      (volatilities min_sigma max_sigma sigma) = Ok call_grid
    /\ put_prices K T r (spot_prices min_S max_S)
         (volatilities min_sigma max_sigma sigma) = Ok put_grid
    /\ line_volatility_call S K T r (volatilities min_sigma max_sigma sigma)
       = Ok call_trace
    /\ line_volatility_put S K T r (volatilities min_sigma max_sigma sigma)
       = Ok put_trace
    /\ forall i,
         (i < length (volatilities min_sigma max_sigma sigma))%nat ->
         nth_error call_trace i = cell call_grid i j
         /\ nth_error put_trace i = cell put_grid i j.
Proof.
  intros HK Hj. do 4 eexists.
  split; [apply call_prices_eq|]. split; [apply put_prices_eq|].
  split; [apply line_volatility_call_eq; assumption|].
  split; [apply line_volatility_put_eq; assumption|].
  intros i Hi.
  destruct (nth_error (volatilities min_sigma max_sigma sigma) i)
    as [v|] eqn:Ev; [|apply nth_error_None in Ev; lia].
  rewrite (map_nth_error (fun v => call_cell K T r S v) _ _ Ev).
  rewrite (map_nth_error (fun v => put_cell K T r S v) _ _ Ev).
  rewrite (cell_map2 (fun v s => call_cell K T r s v) _ _ _ _ _ _ Ev Hj).
  rewrite (cell_map2 (fun v s => put_cell K T r s v) _ _ _ _ _ _ Ev Hj).
  split; reflexivity.
Qed.

Lemma volatility_line_is_grid_column_witness :
  100 <> 0 /\
  nth_error (spot_prices 100 120) 0 = Some 100 /\
  exists call_grid put_grid call_trace put_trace,
    call_prices 100 1 (5 / 100) (spot_prices 100 120)
      (volatilities (1 / 10) (3 / 10) (2 / 10)) = Ok call_grid
    /\ put_prices 100 1 (5 / 100) (spot_prices 100 120)
         (volatilities (1 / 10) (3 / 10) (2 / 10)) = Ok put_grid
    /\ line_volatility_call 100 100 1 (5 / 100)
         (volatilities (1 / 10) (3 / 10) (2 / 10)) = Ok call_trace
    /\ line_volatility_put 100 100 1 (5 / 100)
         (volatilities (1 / 10) (3 / 10) (2 / 10)) = Ok put_trace
    /\ forall i,
         (i < length (volatilities (1 / 10) (3 / 10) (2 / 10)))%nat ->
         nth_error call_trace i = cell call_grid i 0
         /\ nth_error put_trace i = cell put_grid i 0.
Proof.
  assert (HK : 100 <> 0) by lra.
  assert (H : nth_error (spot_prices 100 120) 0 = Some 100).
  { unfold spot_prices. rewrite linspace_nth by lia. f_equal. simpl. lra. }
  split; [exact HK|]. split; [exact H|].
  apply (volatility_line_is_grid_column 100 100 1 (5 / 100) (2 / 10)
           100 120 (1 / 10) (3 / 10) 0 HK H).
Defined.



(** X10. The elements of the volatility axis are the ten samples and the
    volatility of the number input, nothing else.  When the lower
    volatility slider does not exceed the upper one, the axis starts at
    the smaller of the lower slider value and that volatility and ends at
    the larger of the upper slider value and that volatility. *)
Theorem volatility_axis_range min_sigma max_sigma sigma :
  min_sigma <= max_sigma ->
  (forall v, In v (volatilities min_sigma max_sigma sigma)
             <-> In v (linspace min_sigma max_sigma 10) \/ v = sigma)
  /\ nth_error (volatilities min_sigma max_sigma sigma) 0
     = Some (Rmin min_sigma sigma)
  /\ last (volatilities min_sigma max_sigma sigma) 0 = Rmax max_sigma sigma.
Proof.
  intro Hle.
  assert (Hlo : In min_sigma (linspace min_sigma max_sigma 10)).
  { apply linspace_In. exists 0%nat. split; [lia|simpl; lra]. }
  assert (Hhi : In max_sigma (linspace min_sigma max_sigma 10)).
  { apply linspace_In. exists 9%nat. split; [lia|simpl; lra]. }
  split; [intro v; apply volatilities_In|].
  split.
  - apply strict_sorted_head; [apply np_unique_sorted| |].
    + apply volatilities_In. unfold Rmin.
      destruct (Rle_dec min_sigma sigma); [left; assumption|now right].
    + intros x Hx. apply (volatilities_bounds _ _ _ _ Hle Hx).
  - apply strict_sorted_last; [apply np_unique_sorted| |].
    + apply volatilities_In. unfold Rmax.
      destruct (Rle_dec max_sigma sigma); [now right|left; assumption].
    + intros x Hx. apply (volatilities_bounds _ _ _ _ Hle Hx).
Qed.

Lemma volatility_axis_range_witness :
  1 / 10 <= 3 / 10 /\
  (forall v, In v (volatilities (1 / 10) (3 / 10) (2 / 10))
             <-> In v (linspace (1 / 10) (3 / 10) 10) \/ v = 2 / 10)
  /\ nth_error (volatilities (1 / 10) (3 / 10) (2 / 10)) 0
     = Some (Rmin (1 / 10) (2 / 10))
  /\ last (volatilities (1 / 10) (3 / 10) (2 / 10)) 0
     = Rmax (3 / 10) (2 / 10).
Proof. split; [lra|]. apply volatility_axis_range. lra. Defined.

(** X14. The flattened grids that feed the histogram have ten values per
    volatility, and the value at position [10 i + j] is cell [[i][j]]. *)
Theorem flattened_grids K T r sigma min_S max_S min_sigma max_sigma :
  exists call_grid put_grid,
    call_prices K T r (spot_prices min_S max_S)
      (volatilities min_sigma max_sigma sigma) = Ok call_grid
    /\ put_prices K T r (spot_prices min_S max_S)
         (volatilities min_sigma max_sigma sigma) = Ok put_grid
    /\ length (flatten call_grid)
       = (length (volatilities min_sigma max_sigma sigma) * 10)%nat
    /\ length (flatten put_grid)
       = (length (volatilities min_sigma max_sigma sigma) * 10)%nat
    /\ forall i j, (j < 10)%nat ->
         nth_error (flatten call_grid) (i * 10 + j) = cell call_grid i j
         /\ nth_error (flatten put_grid) (i * 10 + j) = cell put_grid i j.
Proof.
  do 2 eexists.
  split; [apply call_prices_eq|]. split; [apply put_prices_eq|].
  set (vols := volatilities min_sigma max_sigma sigma).
  set (spots := spot_prices min_S max_S).
  assert (Hw : forall (f : R -> R -> num),
             Forall (fun row => length row = 10%nat)
               (map (fun v => map (fun s => f s v) spots) vols)).
  { intro f. apply Forall_map, Forall_forall. intros v _.
    rewrite length_map. apply linspace_length. }
  destruct (concat_uniform 10 _ (Hw (call_cell K T r))) as [Hcl Hcn].
  destruct (concat_uniform 10 _ (Hw (put_cell K T r))) as [Hpl Hpn].
  rewrite length_map in Hcl, Hpl. unfold flatten.
  repeat split; auto.
Qed.

